(** * StudyGeni: the document-to-study-artifact pipeline

    A shallow embedding of [controllers/fileController.js] (the five request
    handlers [uploadFile], [getAllFiles], [getFile], [getSummary], [getQuiz])
    together with the parts of the JavaScript runtime they rely on:
    strings as sequences of UTF-16 code units, [String.prototype.replace]
    with a global regular expression, [trim], [JSON.parse], and the
    collaborators the handlers call (local disk, remote object storage, the
    document collection, the generation backend). *)

From stdpp Require Import gmap list sorting strings.
From Stdlib Require Import NArith.

#[local] Set Warnings "-register-all".

Local Open Scope N_scope.

(** ** JavaScript strings *)

Module JS.

(** A JavaScript string is a finite sequence of 16-bit code units. *)
Definition str := list N.

(** An ASCII literal of the source, as code units. *)
Definition lit (s : string) : str :=
  map Ascii.N_of_ascii (String.list_ascii_of_string s).

Definition BACKTICK : N := 96.
Definition NEWLINE : N := 10.
Definition DOT : N := 46.

(** [a === b] on strings. *)
Definition eqb (a b : str) : bool := bool_decide (a = b).

(** [!s] for a string: only the empty string is falsy. *)
Definition falsy (s : str) : bool :=
  match s with [] => true | _ => false end.

(** [a || b] on strings. *)
Definition or_else (a b : str) : str := if falsy a then b else a.

(** [arr.includes(x)] on an array of strings. *)
Definition includes (arr : list str) (x : str) : bool :=
  existsb (eqb x) arr.

(** The code units that [trim] removes: ECMAScript WhiteSpace and
    LineTerminator. *)
Definition is_white_space (c : N) : bool :=
  (c =? 9) || (c =? 10) || (c =? 11) || (c =? 12) || (c =? 13) ||
  (c =? 32) || (c =? 160) || (c =? 5760) ||
  ((8192 <=? c) && (c <=? 8202)) ||
  (c =? 8232) || (c =? 8233) || (c =? 8239) || (c =? 8287) ||
  (c =? 12288) || (c =? 65279).

Fixpoint trimStart (s : str) : str :=
  match s with
  | c :: t => if is_white_space c then trimStart t else s
  | [] => []
  end.

Definition trimEnd (s : str) : str := reverse (trimStart (reverse s)).

(** [s.trim()] *)
Definition trim (s : str) : str := trimEnd (trimStart s).

(** [strip_prefix p s] is [Some r] when [s = p ++ r]. *)
Fixpoint strip_prefix (p s : str) : option str :=
  match p, s with
  | [], _ => Some s
  | a :: p', b :: s' => if a =? b then strip_prefix p' s' else None
  | _ :: _, [] => None
  end.

(** The greedy [\n?] that ends both regular expressions of [getQuiz]. *)
Definition opt_newline (s : str) : str :=
  match s with
  | c :: t => if c =? NEWLINE then t else s
  | [] => []
  end.

(** The regular expression [/pat\n?/] anchored at the start of [s]: the
    text left after the match, if it matches there. *)
Definition match_at (pat s : str) : option str :=
  opt_newline <$> strip_prefix pat s.

(** Number of code units that [/pat\n?/] consumes at the start of [s]. *)
Definition match_length (pat s : str) : option nat :=
  (fun r => length s - length r)%nat <$> match_at pat s.

(** [s.replace(/pat\n?/g, '')]: scan from the left; where the expression
    matches, drop the matched code units and resume right after them;
    elsewhere keep the code unit and move on by one.  [skip] counts the
    code units of the current match that are still to be dropped. *)
Fixpoint remove_from (pat : str) (skip : nat) (s : str) : str :=
  match s with
  | [] => []
  | c :: t =>
      match skip with
      | S k => remove_from pat k t
      | O =>
          match match_length pat s with
          | Some n => remove_from pat (pred n) t
          | None => c :: remove_from pat 0 t
          end
      end
  end.

Definition remove_all (pat : str) (s : str) : str := remove_from pat 0 s.

(** ASCII lower-casing.  [toLowerCase] maps [A]..[Z] to [a]..[z]; no other
    code unit lower-cases to an ASCII letter of an allowed extension. *)
Definition lower (c : N) : N :=
  if (65 <=? c) && (c <=? 90) then c + 32 else c.

Definition toLowerCase (s : str) : str := map lower s.

(** [s.split(sep)] for a one-code-unit separator; never empty. *)
Fixpoint split (sep : N) (s : str) : list str :=
  match s with
  | [] => [[]]
  | c :: t =>
      if c =? sep then [] :: split sep t
      else match split sep t with
           | seg :: segs => (c :: seg) :: segs
           | [] => [[c]]
           end
  end.

(** [arr.pop()]: the last element, [undefined] on an empty array. *)
Definition pop {A} (arr : list A) : option A := last arr.

(** A possibly [undefined] string that is truthy: defined and not empty. *)
Definition truthy (o : option str) : option str :=
  match o with
  | Some s => if falsy s then None else Some s
  | None => None
  end.

(** [o || d] for a possibly [undefined] string [o]. *)
Definition or_default (o : option str) (d : str) : str :=
  default d (truthy o).

(** [s] occurs somewhere in [t]. *)
Definition occurs (s t : str) : Prop := ∃ a b, t = a ++ s ++ b.

End JS.

Notation "« s »" := (JS.lit s) (format "« s »").

(** ** JSON.parse *)

Module JSON.

(** The value [JSON.parse] builds.  A number is kept as its literal: the
    Number it denotes is a function of that text.  An object is kept as
    its members in source order; a later member with the same key
    overwrites an earlier one, which [get] accounts for. *)
Inductive value :=
| Null
| Bool (b : bool)
| Number (literal : JS.str)
| String (s : JS.str)
| Array (elements : list value)
| Object (members : list (JS.str * value)).

Inductive token :=
| TLBracket | TRBracket | TLBrace | TRBrace | TComma | TColon
| TAtom (v : value).

(** *** Lexical grammar *)

Definition is_space (c : N) : bool :=
  (c =? 9) || (c =? 10) || (c =? 13) || (c =? 32).

Definition is_digit (c : N) : bool := (48 <=? c) && (c <=? 57).

Definition is_letter (c : N) : bool := (97 <=? c) && (c <=? 122).

(** Code units that can continue a number literal: digits, [+ - . e E]. *)
Definition is_number_char (c : N) : bool :=
  is_digit c || (c =? 43) || (c =? 45) || (c =? 46) || (c =? 101) || (c =? 69).

Definition hex_value (c : N) : option N :=
  if is_digit c then Some (c - 48)
  else if (97 <=? c) && (c <=? 102) then Some (c - 87)
  else if (65 <=? c) && (c <=? 70) then Some (c - 55)
  else None.

Fixpoint skip_digits (s : JS.str) : JS.str :=
  match s with
  | c :: t => if is_digit c then skip_digits t else s
  | [] => []
  end.

(** One or more digits; what follows them. *)
Definition digits1 (s : JS.str) : option JS.str :=
  match s with
  | c :: t => if is_digit c then Some (skip_digits t) else None
  | [] => None
  end.

Definition opt_minus (s : JS.str) : JS.str :=
  match s with
  | c :: t => if c =? 45 then t else s
  | [] => []
  end.

(** [0] or a digit sequence that does not start with [0]. *)
Definition int_part (s : JS.str) : option JS.str :=
  match s with
  | c :: t => if c =? 48 then Some t else digits1 s
  | [] => None
  end.

Definition frac_part (s : JS.str) : option JS.str :=
  match s with
  | c :: t => if c =? 46 then digits1 t else Some s
  | [] => Some []
  end.

Definition opt_sign (s : JS.str) : JS.str :=
  match s with
  | c :: t => if (c =? 43) || (c =? 45) then t else s
  | [] => []
  end.

Definition exp_part (s : JS.str) : option JS.str :=
  match s with
  | c :: t => if (c =? 101) || (c =? 69) then digits1 (opt_sign t) else Some s
  | [] => Some []
  end.

(** [-? int frac? exp?] *)
Definition valid_number (s : JS.str) : bool :=
  match (r ← int_part (opt_minus s); r ← frac_part r; exp_part r) with
  | Some [] => true
  | _ => false
  end.

(** What the lexer is in the middle of.  Accumulators are reversed. *)
Inductive mode :=
| Idle
| InString (acc : JS.str)
| InEscape (acc : JS.str)
| InUnicode (acc : JS.str) (hex : list N)
| InNumber (acc : JS.str)
| InWord (acc : JS.str).

Definition close_number (acc : JS.str) : option token :=
  let s := reverse acc in
  if valid_number s then Some (TAtom (Number s)) else None.

Definition close_word (acc : JS.str) : option token :=
  let s := reverse acc in
  if JS.eqb s (JS.lit "null") then Some (TAtom Null)
  else if JS.eqb s (JS.lit "true") then Some (TAtom (Bool true))
  else if JS.eqb s (JS.lit "false") then Some (TAtom (Bool false))
  else None.

(** A code unit met between tokens. *)
Definition start (c : N) : option (mode * list token) :=
  if is_space c then Some (Idle, [])
  else if c =? 91 then Some (Idle, [TLBracket])
  else if c =? 93 then Some (Idle, [TRBracket])
  else if c =? 123 then Some (Idle, [TLBrace])
  else if c =? 125 then Some (Idle, [TRBrace])
  else if c =? 44 then Some (Idle, [TComma])
  else if c =? 58 then Some (Idle, [TColon])
  else if c =? 34 then Some (InString [], [])
  else if (c =? 45) || is_digit c then Some (InNumber [c], [])
  else if is_letter c then Some (InWord [c], [])
  else None.

Definition escape (c : N) : option N :=
  if c =? 34 then Some 34
  else if c =? 92 then Some 92
  else if c =? 47 then Some 47
  else if c =? 98 then Some 8
  else if c =? 102 then Some 12
  else if c =? 110 then Some 10
  else if c =? 114 then Some 13
  else if c =? 116 then Some 9
  else None.

Definition step (m : mode) (c : N) : option (mode * list token) :=
  match m with
  | Idle => start c
  | InString acc =>
      if c =? 34 then Some (Idle, [TAtom (String (reverse acc))])
      else if c =? 92 then Some (InEscape acc, [])
      else if c <? 32 then None
      else Some (InString (c :: acc), [])
  | InEscape acc =>
      if c =? 117 then Some (InUnicode acc [], [])
      else e ← escape c; Some (InString (e :: acc), [])
  | InUnicode acc hex =>
      d ← hex_value c;
      match hex with
      | [d2; d1; d0] =>
          Some (InString ((((d0 * 16 + d1) * 16 + d2) * 16 + d) :: acc), [])
      | _ => Some (InUnicode acc (d :: hex), [])
      end
  | InNumber acc =>
      if is_number_char c then Some (InNumber (c :: acc), [])
      else tok ← close_number acc;
           '(m', toks) ← start c;
           Some (m', tok :: toks)
  | InWord acc =>
      if is_letter c then Some (InWord (c :: acc), [])
      else tok ← close_word acc;
           '(m', toks) ← start c;
           Some (m', tok :: toks)
  end.

Definition finish (m : mode) : option (list token) :=
  match m with
  | Idle => Some []
  | InNumber acc => tok ← close_number acc; Some [tok]
  | InWord acc => tok ← close_word acc; Some [tok]
  | InString _ | InEscape _ | InUnicode _ _ => None
  end.

Fixpoint lex (m : mode) (s : JS.str) : option (list token) :=
  match s with
  | [] => finish m
  | c :: t =>
      '(m', toks) ← step m c;
      rest ← lex m' t;
      Some (toks ++ rest)
  end.

(** *** Syntactic grammar *)

(** An array or object that is being read.  Accumulators are reversed;
    an object frame also holds the key whose value is being read. *)
Inductive frame :=
| InArray (done : list value)
| InObject (done : list (JS.str * value)) (key : JS.str).

Inductive state :=
| Value (stack : list frame)
| FirstElement (stack : list frame)
| FirstKey (stack : list frame)
| Key (done : list (JS.str * value)) (stack : list frame)
| Colon (done : list (JS.str * value)) (key : JS.str) (stack : list frame)
| After (v : value) (stack : list frame).

Definition value_start (stack : list frame) (tok : token) : option state :=
  match tok with
  | TAtom v => Some (After v stack)
  | TLBracket => Some (FirstElement stack)
  | TLBrace => Some (FirstKey stack)
  | _ => None
  end.

Definition feed (st : state) (tok : token) : option state :=
  match st with
  | Value stack => value_start stack tok
  | FirstElement stack =>
      match tok with
      | TRBracket => Some (After (Array []) stack)
      | _ => value_start (InArray [] :: stack) tok
      end
  | FirstKey stack =>
      match tok with
      | TRBrace => Some (After (Object []) stack)
      | TAtom (String k) => Some (Colon [] k stack)
      | _ => None
      end
  | Key done stack =>
      match tok with
      | TAtom (String k) => Some (Colon done k stack)
      | _ => None
      end
  | Colon done k stack =>
      match tok with
      | TColon => Some (Value (InObject done k :: stack))
      | _ => None
      end
  | After v (InArray done :: stack) =>
      match tok with
      | TComma => Some (Value (InArray (v :: done) :: stack))
      | TRBracket => Some (After (Array (reverse (v :: done))) stack)
      | _ => None
      end
  | After v (InObject done k :: stack) =>
      match tok with
      | TComma => Some (Key ((k, v) :: done) stack)
      | TRBrace => Some (After (Object (reverse ((k, v) :: done))) stack)
      | _ => None
      end
  | After _ [] => None
  end.

Fixpoint run (st : state) (toks : list token) : option value :=
  match toks with
  | [] => match st with After v [] => Some v | _ => None end
  | tok :: rest => st' ← feed st tok; run st' rest
  end.

(** [JSON.parse(text)]; [None] stands for the SyntaxError it throws. *)
Definition parse (text : JS.str) : option value :=
  toks ← lex Idle text; run (Value []) toks.

(** *** Property access on a parsed value *)

(** Own property [k] of a parsed object. *)
Definition get (members : list (JS.str * value)) (k : JS.str) : option value :=
  snd <$> last (filter (λ kv, kv.1 = k) members).

(** What evaluating [v.length] does. *)
Inductive length_result :=
| Throws
| Undefined
| Count (n : nat)
| Property (v : value).

Definition length_of (v : value) : length_result :=
  match v with
  | Null => Throws
  | Bool _ | Number _ => Undefined
  | String s => Count (length s)
  | Array elements => Count (length elements)
  | Object members =>
      match get members (JS.lit "length") with
      | Some v => Property v
      | None => Undefined
      end
  end.

End JSON.

(** ** Data model and collaborators *)

Definition Id := JS.str.

Definition NL : JS.str := [JS.NEWLINE].
Definition DQ : JS.str := [34].
Definition SQ : JS.str := [39].

(** What a handler can catch. *)
Inductive Error :=
| Raised (message : JS.str)
| ENOENT (path : JS.str)
| SyntaxError (text : JS.str)
| TypeError (message : JS.str).

(** [error.message].  The texts of a SyntaxError and of a TypeError are the
    engine's; no handler sends them to a caller. *)
Definition message (e : Error) : JS.str :=
  match e with
  | Raised m => m
  | ENOENT p => «"ENOENT: no such file or directory, unlink "» ++ SQ ++ p ++ SQ
  | SyntaxError _ => «"Unexpected token in JSON"»
  | TypeError m => m
  end.

(** Modelled from the spec: the schema of the [User] collection
    ([models/User.js] is not among the sources).  The fields are those the
    handlers and the authentication middleware name: [populate] selects
    [name], [email] and [role], the middleware drops [password] and reads
    [role]. *)
Record User := {
  user_id : Id;
  name : JS.str;
  email : JS.str;
  password : JS.str;
  role : JS.str
}.

(** Modelled from the spec: the schema of the [File] collection
    ([models/File.js] is not among the sources), the Document of the data
    model with the field names [uploadFile] passes to [File.create]
    ([publicId] is the storage identifier). *)
Record File := {
  _id : Id;
  title : JS.str;
  description : JS.str;
  subject : JS.str;
  fileUrl : JS.str;
  fileType : JS.str;
  publicId : JS.str;
  createdBy : Id;
  createdAt : N
}.

(** The result of [cloudinary.uploader.upload]. *)
Record UploadResult := {
  secure_url : JS.str;
  public_id : JS.str
}.

Definition Fields := list (string * JS.str).

Definition user_fields (u : User) : Fields :=
  [("_id", user_id u); ("name", name u); ("email", email u);
   ("password", password u); ("role", role u)].

(** The projection [populate(path, select)] applies to the referenced
    document: the selected fields, and [_id], which an inclusive selection
    always keeps. *)
Definition select (names : list string) (u : User) : Fields :=
  filter (λ kv, kv.1 ∈ "_id" :: names) (user_fields u).

(** A [File] whose [createdBy] has been populated; [None] is the [null]
    left when no user has that id. *)
Record Populated := {
  doc : File;
  owner : option Fields
}.

(** Everything a handler can read or change: the paths present on the local
    disk, the objects held by the remote storage, the [File] and [User]
    collections, the prompts sent to the generation backend so far, and the
    lines written with [console.error]. *)
Record World := {
  disk : gset JS.str;
  cloud : list UploadResult;
  files : list File;
  users : list User;
  prompts : list JS.str;
  console : list (JS.str * Error)
}.

(** What the collaborators do during one request: whether the remote upload,
    the record write and the queries fail, the id and timestamp a created
    record gets, what the generation backend answers to a prompt, and the
    clock. *)
Record Env := {
  upload : JS.str → Error + UploadResult;
  create : Error + (Id * N);
  populate_failure : option Error;
  query_failure : option Error;
  generateContent : JS.str → Error + JS.str;
  now : N
}.

(** ** Handlers as state-and-exception computations *)

Definition M (A : Type) : Type := World → World * (Error + A).

#[export] Instance M_ret : MRet M := λ A a w, (w, inr a).

#[export] Instance M_bind : MBind M := λ A B f m w,
  match m w with
  | (w', inl e) => (w', inl e)
  | (w', inr a) => f a w'
  end.

Definition throw {A} (e : Error) : M A := λ w, (w, inl e).

(** [try { body } catch (error) { handler }] *)
Definition try_catch {A} (body : M A) (handler : Error → M A) : M A := λ w,
  match body w with
  | (w', inl e) => handler e w'
  | (w', inr a) => (w', inr a)
  end.

(** The effects a handler can have on the world. *)
Definition unlinked (p : JS.str) (w : World) : World :=
  {| disk := disk w ∖ {[p]}; cloud := cloud w; files := files w;
     users := users w; prompts := prompts w; console := console w |}.

Definition stored (r : UploadResult) (w : World) : World :=
  {| disk := disk w; cloud := cloud w ++ [r]; files := files w;
     users := users w; prompts := prompts w; console := console w |}.

Definition inserted (f : File) (w : World) : World :=
  {| disk := disk w; cloud := cloud w; files := files w ++ [f];
     users := users w; prompts := prompts w; console := console w |}.

Definition sent (prompt : JS.str) (w : World) : World :=
  {| disk := disk w; cloud := cloud w; files := files w; users := users w;
     prompts := prompts w ++ [prompt]; console := console w |}.

Definition logged (label : JS.str) (e : Error) (w : World) : World :=
  {| disk := disk w; cloud := cloud w; files := files w; users := users w;
     prompts := prompts w; console := console w ++ [(label, e)] |}.

(** [fs.existsSync(p)] *)
Definition existsSync (p : JS.str) : M bool := λ w,
  (w, inr (bool_decide (p ∈ disk w))).

(** [fs.unlinkSync(p)] *)
Definition unlinkSync (p : JS.str) : M () := λ w,
  if bool_decide (p ∈ disk w) then (unlinked p w, inr ())
  else (w, inl (ENOENT p)).

(** [console.error(label, error)] *)
Definition console_error (label : JS.str) (e : Error) : M () := λ w,
  (logged label e w, inr ()).

(** [cloudinary.uploader.upload(p, ...)]: on success the object is held by
    the remote storage. *)
Definition cloudinary_upload (env : Env) (p : JS.str) : M UploadResult := λ w,
  match upload env p with
  | inl e => (w, inl e)
  | inr r => (stored r w, inr r)
  end.

(** [File.create({...})]: fails, or persists the record as given with a
    fresh [_id] and [createdAt]. *)
Definition File_create (env : Env)
    (title description subject fileUrl fileType publicId : JS.str)
    (createdBy : Id) : M File := λ w,
  match create env with
  | inl e => (w, inl e)
  | inr (i, t) =>
      let file := {| _id := i; title := title; description := description;
                     subject := subject; fileUrl := fileUrl;
                     fileType := fileType; publicId := publicId;
                     createdBy := createdBy; createdAt := t |} in
      (inserted file w, inr file)
  end.

Definition find_user (us : list User) (i : Id) : option User :=
  head (filter (λ u, user_id u = i) us).

Definition populated (us : list User) (names : list string) (f : File) : Populated :=
  {| doc := f; owner := select names <$> find_user us (createdBy f) |}.

(** [file.populate('createdBy', names)] *)
Definition populate (env : Env) (names : list string) (f : File) : M Populated := λ w,
  match populate_failure env with
  | Some e => (w, inl e)
  | None => (w, inr (populated (users w) names f))
  end.

(** [{ createdAt: -1 }]: [a] may come before [b].  The order among
    documents created at the same time is the sort's own. *)
Definition newest_first (a b : Populated) : Prop :=
  (createdAt (doc b) ≤ createdAt (doc a))%N.

#[export] Instance newest_first_dec a b : Decision (newest_first a b) :=
  N.le_dec _ _.

(** [File.find().populate('createdBy', names).sort({ createdAt: -1 })] *)
Definition File_find (env : Env) (names : list string) : M (list Populated) := λ w,
  match query_failure env with
  | Some e => (w, inl e)
  | None =>
      (w, inr (merge_sort newest_first (populated (users w) names <$> files w)))
  end.

(** The document with a given id, if the collection has one. *)
Definition findById (w : World) (i : Id) : option File :=
  head (filter (λ f, _id f = i) (files w)).

(** [File.findById(id)] *)
Definition File_findById (env : Env) (i : Id) : M (option File) := λ w,
  match query_failure env with
  | Some e => (w, inl e)
  | None => (w, inr (findById w i))
  end.

(** [File.findById(id).populate('createdBy', names)] *)
Definition File_findById_populate (env : Env) (i : Id) (names : list string)
  : M (option Populated) := λ w,
  match query_failure env with
  | Some e => (w, inl e)
  | None =>
      (w, inr (populated (users w) names <$> findById w i))
  end.

(** [model.generateContent(prompt)] followed by [result.response.text()];
    the prompt sent is recorded. *)
Definition model_generateContent (env : Env) (prompt : JS.str) : M JS.str := λ w,
  (sent prompt w, generateContent env prompt).

(** ** Requests and responses *)

(** The file staged on disk by the upload middleware. *)
Record StagedFile := {
  originalname : JS.str;
  path : JS.str
}.

(** [req.body], [req.file] and [req.user.id] of an upload request. *)
Record UploadRequest := {
  body_title : option JS.str;
  body_description : option JS.str;
  body_subject : option JS.str;
  req_file : option StagedFile;
  user : Id
}.

Inductive Body :=
| Failure (message : JS.str)
| Uploaded (message : JS.str) (data : Populated)
| FileList (count : nat) (data : list Populated)
| OneFile (data : Populated)
| SummaryData (fileId : Id) (title subject summary : JS.str) (generatedAt : N)
| QuizData (fileId : Id) (title subject : JS.str) (quiz : JSON.value)
    (totalQuestions : JSON.length_result) (generatedAt : N).

(** [res.status(status).json(body)]; [res.json] alone answers 200. *)
Record Response := {
  status : N;
  body : Body
}.

Definition respond (status : N) (body : Body) : M Response :=
  mret {| status := status; body := body |}.

(** ** uploadFile *)

Definition allowedTypes : list JS.str :=
  [«"pdf"»; «"docx"»; «"ppt"»; «"pptx"»].

(** [originalname.split('.').pop().toLowerCase()] *)
Definition file_extension (originalname : JS.str) : M JS.str :=
  match JS.pop (JS.split JS.DOT originalname) with
  | Some ext => mret (JS.toLowerCase ext)
  | None => throw (TypeError «"Cannot read properties of undefined"»)
  end.

Definition uploadFile (env : Env) (req : UploadRequest) : M Response :=
  try_catch
    (match JS.truthy (body_title req), JS.truthy (body_subject req) with
     | Some title, Some subject =>
         match req_file req with
         | None => respond 400 (Failure «"Please upload a file"»)
         | Some file =>
             fileExt ← file_extension (originalname file);
             if negb (JS.includes allowedTypes fileExt) then
               unlinkSync (path file);;
               respond 400
                 (Failure «"Invalid file type. Only PDF, DOCX, PPT, PPTX allowed"»)
             else
               result ← cloudinary_upload env (path file);
               unlinkSync (path file);;
               file ← File_create env
                        title
                        (JS.or_default (body_description req) [])
                        subject
                        (secure_url result)
                        (if JS.eqb fileExt «"pptx"» then «"ppt"» else fileExt)
                        (public_id result)
                        (user req);
               file ← populate env ["name"; "email"] file;
               respond 201 (Uploaded «"File uploaded successfully"» file)
         end
     | _, _ => respond 400 (Failure «"Please provide title and subject"»)
     end)
    (λ error,
       match req_file req return M () with
       | Some file =>
           present ← existsSync (path file);
           match present with
           | true => unlinkSync (path file)
           | false => mret ()
           end
       | None => mret ()
       end;;
       console_error «"Upload error:"» error;;
       respond 500 (Failure (message error))).

(** ** getAllFiles and getFile *)

Definition getAllFiles (env : Env) : M Response :=
  try_catch
    (files ← File_find env ["name"; "email"; "role"];
     respond 200 (FileList (length files) files))
    (λ error,
       console_error «"Get files error:"» error;;
       respond 500 (Failure (message error))).

Definition getFile (env : Env) (id : Id) : M Response :=
  try_catch
    (file ← File_findById_populate env id ["name"; "email"; "role"];
     match file with
     | None => respond 404 (Failure «"File not found"»)
     | Some file => respond 200 (OneFile file)
     end)
    (λ error,
       console_error «"Get file error:"» error;;
       respond 500 (Failure (message error))).

(** ** Prompts *)

Inductive Mode := SummaryMode | QuizMode.

Definition summaryPrompt (title subject description : JS.str) : JS.str :=
  concat [
    «"You are an educational AI assistant. Generate a comprehensive and well-structured summary for a study material."»; NL;
    NL;
    «"Title: "»; DQ; title; DQ; NL;
    «"Subject: "»; subject; NL;
    «"Description: "»; JS.or_else description «"Not provided"»; NL;
    NL;
    «"Please provide:"»; NL;
    «"1. A brief overview (2-3 sentences)"»; NL;
    «"2. Key concepts and topics covered (bullet points)"»; NL;
    «"3. Important points students should remember"»; NL;
    «"4. Learning objectives"»; NL;
    NL;
    «"Make it educational, clear, and easy to understand for students."»
  ].

Definition quizPrompt (title subject description : JS.str) : JS.str :=
  concat [
    «"You are an educational AI assistant. Generate a quiz for study material."»; NL;
    NL;
    «"Title: "»; DQ; title; DQ; NL;
    «"Subject: "»; subject; NL;
    «"Description: "»; JS.or_else description «"Not provided"»; NL;
    NL;
    «"Generate exactly 5 multiple-choice questions to test student understanding."»; NL;
    NL;
    «"IMPORTANT: Return ONLY a valid JSON array with no additional text, markdown, or formatting. Use this exact format:"»; NL;
    NL;
    «"["»; NL;
    «"  {"»; NL;
    «"    "»; DQ; «"question"»; DQ; «": "»; DQ; «"Question text here?"»; DQ; «","»; NL;
    «"    "»; DQ; «"options"»; DQ; «": ["»;
      DQ; «"A) First option"»; DQ; «", "»;
      DQ; «"B) Second option"»; DQ; «", "»;
      DQ; «"C) Third option"»; DQ; «", "»;
      DQ; «"D) Fourth option"»; DQ; «"],"»; NL;
    «"    "»; DQ; «"correctAnswer"»; DQ; «": "»; DQ; «"A"»; DQ; «","»; NL;
    «"    "»; DQ; «"explanation"»; DQ; «": "»; DQ; «"Brief explanation why this answer is correct"»; DQ; NL;
    «"  }"»; NL;
    «"]"»; NL;
    NL;
    «"Requirements:"»; NL;
    «"- Questions should test understanding, not just memorization"»; NL;
    «"- Options should be plausible and challenging"»; NL;
    «"- Explanations should be educational"»; NL;
    «"- Return ONLY the JSON array, nothing else"»
  ].

(** The prompt a handler builds from the document it loaded. *)
Definition buildPrompt (mode : Mode) (file : File) : JS.str :=
  match mode with
  | SummaryMode => summaryPrompt (title file) (subject file) (description file)
  | QuizMode => quizPrompt (title file) (subject file) (description file)
  end.

(** ** getSummary *)

Definition getSummary (env : Env) (id : Id) : M Response :=
  try_catch
    (file ← File_findById env id;
     match file with
     | None => respond 404 (Failure «"File not found"»)
     | Some file =>
         let prompt := buildPrompt SummaryMode file in
         summary ← model_generateContent env prompt;
         respond 200
           (SummaryData (_id file) (title file) (subject file) summary (now env))
     end)
    (λ error,
       console_error «"Summary generation error:"» error;;
       respond 500 (Failure «"Failed to generate summary. Please try again."»)).

(** ** getQuiz *)

Definition FENCE : JS.str := «"```"».
Definition FENCE_JSON : JS.str := «"```json"».

(** [quizText.replace(/```json\n?/g, '').replace(/```\n?/g, '').trim()] *)
Definition clean (quizText : JS.str) : JS.str :=
  JS.trim (JS.remove_all FENCE (JS.remove_all FENCE_JSON quizText)).

(** [JSON.parse(text)] as a statement that can throw. *)
Definition JSON_parse (text : JS.str) : M JSON.value :=
  match JSON.parse text with
  | Some v => mret v
  | None => throw (SyntaxError text)
  end.

(** [quiz.length] as an expression that can throw. *)
Definition get_length (quiz : JSON.value) : M JSON.length_result :=
  match JSON.length_of quiz with
  | JSON.Throws => throw (TypeError «"Cannot read properties of null"»)
  | r => mret r
  end.

(** Cleaning and decoding, the two steps between the backend's answer and
    the response. *)
Definition parseQuiz (rawText : JS.str) : option JSON.value :=
  JSON.parse (clean rawText).

Definition getQuiz (env : Env) (id : Id) : M Response :=
  try_catch
    (file ← File_findById env id;
     match file with
     | None => respond 404 (Failure «"File not found"»)
     | Some file =>
         let prompt := buildPrompt QuizMode file in
         quizText ← model_generateContent env prompt;
         let quizText := clean quizText in
         quiz ← JSON_parse quizText;
         totalQuestions ← get_length quiz;
         respond 200
           (QuizData (_id file) (title file) (subject file) quiz totalQuestions
              (now env))
     end)
    (λ error,
       console_error «"Quiz generation error:"» error;;
       respond 500 (Failure «"Failed to generate quiz. Please try again."»)).

(** ** Vocabulary of the properties *)

(** A payload wrapped in code-fence markers: with or without the [json]
    language tag after the opening fence, with or without a line break
    after the opening fence and before the closing one. *)
Definition fenced (json_tag nl_open nl_close : bool) (payload : JS.str) : JS.str :=
  FENCE ++ (if json_tag then «"json"» else []) ++ (if nl_open then NL else []) ++
  payload ++ (if nl_close then NL else []) ++ FENCE.

(** The structural contract of the specification for a quiz question and
    for a quiz.  No function of the source checks it. *)
Definition question_contract (q : JSON.value) : bool :=
  match q with
  | JSON.Object members =>
      match JSON.get members «"question"», JSON.get members «"options"»,
            JSON.get members «"correctAnswer"», JSON.get members «"explanation"» with
      | Some (JSON.String _), Some (JSON.Array options),
        Some (JSON.String answer), Some (JSON.String _) =>
          bool_decide (length options = 4%nat) &&
          JS.includes [«"A"»; «"B"»; «"C"»; «"D"»] answer
      | _, _, _, _ => false
      end
  | _ => false
  end.

Definition quiz_contract (quiz : JSON.value) : bool :=
  match quiz with
  | JSON.Array questions =>
      bool_decide (length questions = 5%nat) && forallb question_contract questions
  | _ => false
  end.

(** The artifact handler of a mode, the label it logs under, and the
    response it sends when generation fails. *)
Definition handler (mode : Mode) : Env → Id → M Response :=
  match mode with
  | SummaryMode => getSummary
  | QuizMode => getQuiz
  end.

Definition error_label (mode : Mode) : JS.str :=
  match mode with
  | SummaryMode => «"Summary generation error:"»
  | QuizMode => «"Quiz generation error:"»
  end.

Definition generation_error (mode : Mode) : Response :=
  match mode with
  | SummaryMode =>
      {| status := 500; body := Failure «"Failed to generate summary. Please try again."» |}
  | QuizMode =>
      {| status := 500; body := Failure «"Failed to generate quiz. Please try again."» |}
  end.

Definition NOT_FOUND : Response :=
  {| status := 404; body := Failure «"File not found"» |}.

(** The ways generation fails for a loaded document: the backend call
    throws, or the quiz text does not decode, or it decodes to [null]. *)
Inductive generation_fails (env : Env) (file : File) : Mode → Error → Prop :=
| backend_fails mode e :
    generateContent env (buildPrompt mode file) = inl e →
    generation_fails env file mode e
| decoding_fails raw :
    generateContent env (buildPrompt QuizMode file) = inr raw →
    parseQuiz raw = None →
    generation_fails env file QuizMode (SyntaxError (clean raw))
| decodes_to_null raw :
    generateContent env (buildPrompt QuizMode file) = inr raw →
    parseQuiz raw = Some JSON.Null →
    generation_fails env file QuizMode (TypeError «"Cannot read properties of null"»).

(** The extension [uploadFile] computes from the original file name. *)
Definition fileExt_of (originalname : JS.str) : JS.str :=
  JS.toLowerCase (default [] (JS.pop (JS.split JS.DOT originalname))).

(** [fileExt === 'pptx' ? 'ppt' : fileExt] *)
Definition fileType_of (fileExt : JS.str) : JS.str :=
  if JS.eqb fileExt «"pptx"» then «"ppt"» else fileExt.

(** The record [uploadFile] asks [File.create] to persist. *)
Definition new_file (i : Id) (t : N) (title : JS.str) (req : UploadRequest)
    (subject : JS.str) (ext : JS.str) (r : UploadResult) : File :=
  {| _id := i; title := title;
     description := JS.or_default (body_description req) [];
     subject := subject; fileUrl := secure_url r;
     fileType := fileType_of ext; publicId := public_id r;
     createdBy := user req; createdAt := t |}.

(** What the [catch] block of [uploadFile] logs and answers. *)
Definition upload_error (e : Error) (w : World) : World * (Error + Response) :=
  (logged «"Upload error:"» e w, inr {| status := 500; body := Failure (message e) |}).

(** The names of the owner fields a populated document carries are among
    [names]. *)
Definition owner_fields_among (names : list string) (d : Populated) : Prop :=
  ∀ fields k v, owner d = Some fields → (k, v) ∈ fields → k ∈ names.

(** A document handed to the caller by create, findAll or findById, with
    the owner fields the handler asks [populate] for. *)
Inductive returned : list string → Populated → Prop :=
| returned_by_create env req w w' msg d :
    uploadFile env req w =
      (w', inr {| status := 201; body := Uploaded msg d |}) →
    returned ["name"; "email"] d
| returned_by_findAll env w w' n ds d :
    getAllFiles env w = (w', inr {| status := 200; body := FileList n ds |}) →
    d ∈ ds →
    returned ["name"; "email"; "role"] d
| returned_by_findById env id w w' d :
    getFile env id w = (w', inr {| status := 200; body := OneFile d |}) →
    returned ["name"; "email"; "role"] d.

(** ** Sample data *)

Definition alice : User :=
  {| user_id := «"u1"»; name := «"Alice"»; email := «"alice@school.example"»;
     password := «"$2a$10$hash"»; role := «"teacher"» |}.

Definition algebra : File :=
  {| _id := «"f1"»; title := «"Algebra Basics"»; description := [];
     subject := «"Math"»;
     fileUrl := «"https://res.cloudinary.com/demo/raw/upload/studygeni/notes.pdf"»;
     fileType := «"pdf"»; publicId := «"studygeni/notes"»;
     createdBy := «"u1"»; createdAt := 1000 |}.

(** Same title, subject and description as [algebra]; everything else
    differs. *)
Definition algebra_slides : File :=
  {| _id := «"f2"»; title := «"Algebra Basics"»; description := [];
     subject := «"Math"»;
     fileUrl := «"https://res.cloudinary.com/demo/raw/upload/studygeni/slides.pptx"»;
     fileType := «"ppt"»; publicId := «"studygeni/slides"»;
     createdBy := «"u1"»; createdAt := 3000 |}.

Definition library : World :=
  {| disk := ∅; cloud := []; files := [algebra]; users := [alice];
     prompts := []; console := [] |}.

Definition second_library : World :=
  {| disk := {[ «"uploads/17-draft.pdf"» ]}; cloud := [];
     files := [algebra; algebra_slides]; users := [alice];
     prompts := [«"earlier prompt"»]; console := [] |}.

(** A backend that answers every prompt with the same text. *)
Definition answering (text : JS.str) : Env :=
  {| upload := λ _, inl (Raised «"not used"»);
     create := inl (Raised «"not used"»);
     populate_failure := None;
     query_failure := None;
     generateContent := λ _, inr text;
     now := 2000 |}.

(** A backend whose call throws. *)
Definition failing (e : Error) : Env :=
  {| upload := λ _, inl (Raised «"not used"»);
     create := inl (Raised «"not used"»);
     populate_failure := None;
     query_failure := None;
     generateContent := λ _, inl e;
     now := 2000 |}.

Definition quota_exceeded : Error :=
  Raised «"[429 Too Many Requests] Quota exceeded for model gemini-2.5-flash"».

Definition question (answer : JS.str) : JS.str :=
  concat [«"{"»; DQ; «"question"»; DQ; «":"»; DQ; «"2+2?"»; DQ; «","»;
          DQ; «"options"»; DQ; «":["»;
            DQ; «"A) 3"»; DQ; «","»; DQ; «"B) 4"»; DQ; «","»;
            DQ; «"C) 5"»; DQ; «","»; DQ; «"D) 6"»; DQ; «"],"»;
          DQ; «"correctAnswer"»; DQ; «":"»; DQ; answer; DQ; «","»;
          DQ; «"explanation"»; DQ; «":"»; DQ; «"sum"»; DQ; «"}"»].

(** Three well-formed questions: decodes, but is not a quiz of five. *)
Definition three_questions : JS.str :=
  concat [«"["»; question «"B"»; «","»; question «"B"»; «","»; question «"B"»; «"]"»].

(** Five questions, the last with an answer outside A-D. *)
Definition answer_E : JS.str :=
  concat [«"["»; question «"B"»; «","»; question «"B"»; «","»; question «"B"»; «","»;
          question «"B"»; «","»; question «"E"»; «"]"»].

Definition five_questions : JS.str :=
  concat [«"["»; question «"B"»; «","»; question «"A"»; «","»; question «"C"»; «","»;
          question «"D"»; «","»; question «"B"»; «"]"»].

(** A one-element array whose string holds a fence. *)
Definition payload_with_fence : JS.str :=
  «"["» ++ DQ ++ «"a```b"» ++ DQ ++ «"]"».

Definition notes_pdf : StagedFile :=
  {| originalname := «"notes.pdf"»; path := «"uploads/1700000000000-42-notes.pdf"» |}.

Definition slides_PPTX : StagedFile :=
  {| originalname := «"Week 1.Slides.PPTX"»;
     path := «"uploads/1700000000001-7-Week 1.Slides.PPTX"» |}.

(** The world after the upload middleware staged [file]. *)
Definition staged (file : StagedFile) : World :=
  {| disk := {[ path file ]}; cloud := []; files := []; users := [alice];
     prompts := []; console := [] |}.

Definition upload_request (title : option JS.str) (file : StagedFile) : UploadRequest :=
  {| body_title := title; body_description := None; body_subject := Some «"Math"»;
     req_file := Some file; user := «"u1"» |}.

Definition remote_object : UploadResult :=
  {| secure_url := «"https://res.cloudinary.com/demo/raw/upload/studygeni/abc"»;
     public_id := «"studygeni/abc"» |}.

(** Collaborators for an upload: the remote upload succeeds, the record
    write does what [create] says. *)
Definition uploading (create : Error + (Id * N)) : Env :=
  {| upload := λ _, inr remote_object;
     create := create;
     populate_failure := None;
     query_failure := None;
     generateContent := λ _, inl (Raised «"not used"»);
     now := 2000 |}.


(** * The routes: authentication, staging, error handling *)

(** ** Authentication middleware ([middleware/auth.js]) *)

Definition SPACE : N := 32.

(** [s.startsWith(p)] *)
Definition startsWith (s p : JS.str) : bool :=
  match JS.strip_prefix p s with
  | Some _ => true
  | None => false
  end.

(** What the collaborators of the authentication middleware do during one
    request: [jwt.verify(token, secret)] throws or yields the id the token
    carries, and the user query may fail. *)
Record AuthEnv := {
  jwt_verify : JS.str → Error + Id;
  user_query_failure : option Error
}.

(** The file part of a multipart form, as the upload middleware sees it. *)
Record FilePart := {
  part_originalname : JS.str;
  part_mimetype : JS.str
}.

(** What the middleware and the handlers read from and attach to [req]:
    the [authorization] header, [req.user], [req.params.id], the text fields
    and the file part of the form, and [req.file]. *)
Record Request := {
  authorization : option JS.str;
  req_user : option Fields;
  params_id : Id;
  form_title : option JS.str;
  form_description : option JS.str;
  form_subject : option JS.str;
  form_file : option FilePart;
  staged_file : option StagedFile
}.

(** What a middleware does with a request: answer it, hand it to the next
    one with [next()], or hand an error on with [next(err)]. *)
Inductive Step :=
| Answered (r : Response)
| Next (req : Request)
| NextError (e : Error).

(** The token as [protect] reads it off the header:
    [authorization.split(' ')[1]] when the header is there and starts with
    [Bearer], [undefined] otherwise. *)
Definition token_of (authorization : option JS.str) : option JS.str :=
  match JS.truthy authorization with
  | Some header =>
      if startsWith header «"Bearer"» then JS.split SPACE header !! 1%nat
      else None
  | None => None
  end.

(** [select('-password')]: every field but the named ones. *)
Definition deselect (names : list string) (u : User) : Fields :=
  filter (λ kv, kv.1 ∉ names) (user_fields u).

(** [fields.k] *)
Definition field (k : string) (fields : Fields) : option JS.str :=
  snd <$> head (filter (λ kv, kv.1 = k) fields).

(** [jwt.verify(token, process.env.JWT_SECRET)], then [decoded.id] *)
Definition verify (aenv : AuthEnv) (token : JS.str) : M Id := λ w,
  (w, jwt_verify aenv token).

(** [User.findById(id).select('-password')] *)
Definition User_findById_select (aenv : AuthEnv) (i : Id) : M (option Fields) := λ w,
  match user_query_failure aenv with
  | Some e => (w, inl e)
  | None => (w, inr (deselect ["password"] <$> find_user (users w) i))
  end.

(** [console.error(label, text)] with a string: the line is recorded as
    one whose detail has that text. *)
Definition console_error_text (label text : JS.str) : M () :=
  console_error label (Raised text).

Definition set_user (u : option Fields) (req : Request) : Request :=
  {| authorization := authorization req; req_user := u;
     params_id := params_id req; form_title := form_title req;
     form_description := form_description req; form_subject := form_subject req;
     form_file := form_file req; staged_file := staged_file req |}.

Definition set_staged_file (f : option StagedFile) (req : Request) : Request :=
  {| authorization := authorization req; req_user := req_user req;
     params_id := params_id req; form_title := form_title req;
     form_description := form_description req; form_subject := form_subject req;
     form_file := form_file req; staged_file := f |}.

Definition answer (status : N) (message : JS.str) : M Step :=
  mret (Answered {| status := status; body := Failure message |}).

Definition protect (aenv : AuthEnv) (req : Request) : M Step :=
  try_catch
    (match JS.truthy (token_of (authorization req)) with
     | None => answer 401 «"Not authorized, no token provided"»
     | Some token =>
         decoded ← verify aenv token;
         user ← User_findById_select aenv decoded;
         match user with
         | None => answer 401 «"User not found"»
         | Some _ => mret (Next (set_user user req))
         end
     end)
    (λ error,
       console_error_text «"Auth error:"» (message error);;
       answer 401 «"Not authorized, token failed"»).

Definition isTeacher (req : Request) : M Step :=
  match req_user req with
  | Some u =>
      if bool_decide (field "role" u = Some «"teacher"») then mret (Next req)
      else answer 403 «"Access denied. Only teachers can perform this action."»
  | None => answer 403 «"Access denied. Only teachers can perform this action."»
  end.

(** ** Staging of the uploaded file ([routes/files.js]) *)

(** What staging depends on: [Date.now()], the value of
    [Math.round(Math.random() * 1E9)], and whether the upload library found
    the file within the size limit of 10 MB. *)
Record MulterEnv := {
  date_now : N;
  random_1E9 : N;
  within_limit : bool
}.

(** The digits of a non-negative integer, least significant first, of a
    number below [10 ^ fuel]. *)
Fixpoint digits_rev (fuel : nat) (n : N) : JS.str :=
  match fuel with
  | O => []
  | S fuel' =>
      (48 + n `mod` 10) :: (if n <? 10 then [] else digits_rev fuel' (n `div` 10))
  end.

(** A non-negative integer as a string. *)
Definition decimal (n : N) : JS.str := reverse (digits_rev (S (N.to_nat (N.log2 n))) n).

Definition destination : JS.str := «"uploads/"».

(** The [filename] function of the disk storage. *)
Definition filename (menv : MulterEnv) (file : FilePart) : JS.str :=
  let uniqueSuffix := decimal (date_now menv) ++ «"-"» ++ decimal (random_1E9 menv) in
  uniqueSuffix ++ «"-"» ++ part_originalname file.

Definition fileFilter_allowedTypes : list JS.str :=
  [«"application/pdf"»;
   «"application/vnd.openxmlformats-officedocument.wordprocessingml.document"»;
   «"application/msword"»;
   «"application/vnd.ms-powerpoint"»;
   «"application/vnd.openxmlformats-officedocument.presentationml.presentation"»].

(** [fileFilter]: [cb(null, true)] or [cb(new Error(...), false)]. *)
Definition fileFilter (file : FilePart) : Error + () :=
  if JS.includes fileFilter_allowedTypes (part_mimetype file) then inr ()
  else inl (Raised «"Invalid file type. Only PDF, DOCX, and PPT files are allowed."»).

Definition written (p : JS.str) (w : World) : World :=
  {| disk := disk w ∪ {[p]}; cloud := cloud w; files := files w;
     users := users w; prompts := prompts w; console := console w |}.

(** Where the disk storage puts a file: destination and file name joined. *)
Definition staging_path (menv : MulterEnv) (file : FilePart) : JS.str :=
  destination ++ filename menv file.

(** [upload.single('file')]: without a file part the request goes on as it
    is; a part the filter refuses, or one over the size limit, goes to the
    error handler and leaves nothing on disk; otherwise the part is written
    to disk and attached as [req.file]. *)
Definition upload_single (menv : MulterEnv) (req : Request) : M Step := λ w,
  match form_file req with
  | None => (w, inr (Next req))
  | Some file =>
      match fileFilter file with
      | inl e => (w, inr (NextError e))
      | inr _ =>
          if within_limit menv then
            let p := staging_path menv file in
            (written p w,
             inr (Next (set_staged_file
                          (Some {| originalname := part_originalname file; path := p |})
                          req)))
          else (w, inr (NextError (Raised «"File too large"»)))
      end
  end.

(** ** The route table *)

(** [router.METHOD(path, m, k)]: [k] runs when [m] calls [next()]. *)
Definition chain (m k : Request → M Step) (req : Request) : M Step :=
  s ← m req;
  match s with
  | Next req' => k req'
  | Answered _ | NextError _ => mret s
  end.

(** A handler at the end of a chain always answers. *)
Definition handle (h : Request → M Response) (req : Request) : M Step :=
  r ← h req; mret (Answered r).

(** [req.body], [req.file] and [req.user.id] as [uploadFile] reads them.
    The route runs [uploadFile] behind [protect], which sets [req.user]. *)
Definition upload_request_of (req : Request) : UploadRequest :=
  {| body_title := form_title req;
     body_description := form_description req;
     body_subject := form_subject req;
     req_file := staged_file req;
     user := default [] (req_user req ≫= field "_id") |}.

Inductive Route := GET_files | GET_file | GET_summary | GET_quiz | POST_files.

Definition router (aenv : AuthEnv) (menv : MulterEnv) (env : Env) (route : Route)
  : Request → M Step :=
  match route with
  | GET_files => chain (protect aenv) (handle (λ _, getAllFiles env))
  | GET_file => chain (protect aenv) (handle (λ req, getFile env (params_id req)))
  | GET_summary => chain (protect aenv) (handle (λ req, getSummary env (params_id req)))
  | GET_quiz => chain (protect aenv) (handle (λ req, getQuiz env (params_id req)))
  | POST_files =>
      chain (protect aenv)
        (chain isTeacher
           (chain (upload_single menv)
              (handle (λ req, uploadFile env (upload_request_of req)))))
  end.

(** ** The application ([api/server.js]) *)

(** What the caller gets: a handler's or a middleware's answer, the error
    handler's 500 with its [error] field ([None] is the empty object), or
    the 404 of the last middleware. *)
Inductive Reply :=
| Sent (r : Response)
| SomethingWentWrong (error : option JS.str)
| RouteNotFound.

(** The error-handling middleware; [console.error(err.stack)] is recorded
    as a line without label that holds the error. *)
Definition errorHandler (node_env : option JS.str) (err : Error) : M Reply :=
  console_error [] err;;
  mret (SomethingWentWrong
          (if bool_decide (node_env = Some «"development"») then Some (message err)
           else None)).

(** A request to one of the file routes, through the route's chain and, on
    [next(err)], the error handler. *)
Definition serve (aenv : AuthEnv) (menv : MulterEnv) (env : Env)
    (node_env : option JS.str) (route : Route) (req : Request) : M Reply :=
  s ← router aenv menv env route req;
  match s with
  | Answered r => mret (Sent r)
  | NextError e => errorHandler node_env e
  | Next _ => mret RouteNotFound
  end.

(** ** Vocabulary of the properties *)

(** Disk, remote storage and both collections are as they were. *)
Definition same_store (w w' : World) : Prop :=
  disk w' = disk w ∧ cloud w' = cloud w ∧ files w' = files w ∧ users w' = users w.

(** No prompt was sent to the generation backend. *)
Definition no_generation (w w' : World) : Prop := prompts w' = prompts w.

(** ** More sample data *)

Definition bob : User :=
  {| user_id := «"u2"»; name := «"Bob"»; email := «"bob@school.example"»;
     password := «"$2a$10$other"»; role := «"student"» |}.

(** Tokens [t-alice] and [t-bob] verify; no user query fails. *)
Definition tokens : AuthEnv :=
  {| jwt_verify := λ t,
       if JS.eqb t «"t-alice"» then inr «"u1"»
       else if JS.eqb t «"t-bob"» then inr «"u2"»
       else inl (Raised «"jwt malformed"»);
     user_query_failure := None |}.

Definition clock : MulterEnv :=
  {| date_now := 1700000000000; random_1E9 := 42; within_limit := true |}.

Definition school : World :=
  {| disk := ∅; cloud := []; files := [algebra]; users := [alice; bob];
     prompts := []; console := [] |}.

Definition bearer (token : JS.str) : option JS.str := Some («"Bearer "» ++ token).

Definition upload_form (auth : option JS.str) (title : option JS.str)
    (file : FilePart) : Request :=
  {| authorization := auth; req_user := None; params_id := [];
     form_title := title; form_description := None;
     form_subject := Some «"Math"»; form_file := Some file; staged_file := None |}.

Definition read_request (auth : option JS.str) (id : Id) : Request :=
  {| authorization := auth; req_user := None; params_id := id;
     form_title := None; form_description := None; form_subject := None;
     form_file := None; staged_file := None |}.

Definition notes_part : FilePart :=
  {| part_originalname := «"notes.pdf"»; part_mimetype := «"application/pdf"» |}.

Definition legacy_doc_part : FilePart :=
  {| part_originalname := «"essay.doc"»; part_mimetype := «"application/msword"» |}.

Definition image_part : FilePart :=
  {| part_originalname := «"photo.pdf"»; part_mimetype := «"image/png"» |}.

(** The database does not answer. *)
Definition database_down : Env :=
  {| upload := λ _, inl (Raised «"not used"»);
     create := inl (Raised «"not used"»);
     populate_failure := None;
     query_failure := Some (Raised «"connect ECONNREFUSED 127.0.0.1:27017"»);
     generateContent := λ _, inr «"unused"»;
     now := 2000 |}.

Definition archive_zip : StagedFile :=
  {| originalname := «"archive.tar.ZIP"»; path := «"uploads/1700000000002-9-archive.tar.ZIP"» |}.

(** The request got past [protect], which attached a user. *)
Definition authenticated (aenv : AuthEnv) (req : Request) (w : World)
    (req' : Request) : Prop :=
  protect aenv req w = (w, inr (Next req')).

(** The role of the user attached to a request. *)
Definition role_of (req : Request) : option JS.str := req_user req ≫= field "role".

(** The error with which staging hands a file part to the error handler,
    if it does. *)
Definition staging_error (menv : MulterEnv) (file : FilePart) : option Error :=
  match fileFilter file with
  | inl e => Some e
  | inr _ => if within_limit menv then None else Some (Raised «"File too large"»)
  end.

Definition DASH : N := 45.

(** A handler's outcome as the caller of the route gets it. *)
Definition replied (x : World * (Error + Response)) : World * (Error + Reply) :=
  (x.1, match x.2 with inl e => inl e | inr r => inr (Sent r) end).

(** The number that digits, least significant first, denote. *)
Fixpoint number_of (digits : JS.str) : N :=
  match digits with
  | [] => 0
  | d :: rest => (d - 48) + 10 * number_of rest
  end.

(** The user a request carries once [protect] has found [u]. *)
Definition signed_in (u : User) (req : Request) : Request :=
  set_user (Some (deselect ["password"] u)) req.

(** The request [uploadFile] gets once the file part is staged. *)
Definition staged_request (menv : MulterEnv) (part : FilePart) (req : Request) : Request :=
  set_staged_file
    (Some {| originalname := part_originalname part; path := staging_path menv part |})
    req.

(** * Properties of the string operations *)

Section remove_all.
Import JS.
Variable pat : str.
Hypothesis pat_nonempty : pat ≠ [].

Lemma strip_prefix_Some s r : strip_prefix pat s = Some r ↔ s = pat ++ r.
Proof using Type.
  clear pat_nonempty. revert s. induction pat as [|a p IH]; intros s; simpl.
  - split; [by intros [= ->] | by intros ->].
  - destruct s as [|b s]; [done|].
    destruct (N.eqb_spec a b) as [->|Hne].
    + rewrite IH. split; [by intros -> | by intros [= ->]].
    + split; [done | intros [= ? _]; done].
Qed.

Lemma strip_prefix_app r : strip_prefix pat (pat ++ r) = Some r.
Proof using Type. by apply strip_prefix_Some. Qed.

(** Appending text that starts with a code unit foreign to the pattern
    creates no match. *)
Lemma strip_prefix_app_None s c suf :
  strip_prefix pat s = None → c ∉ pat → strip_prefix pat (s ++ c :: suf) = None.
Proof using Type.
  clear pat_nonempty. revert s. induction pat as [|a p IH]; intros s; simpl; [done|].
  intros Hs Hc. apply not_elem_of_cons in Hc as [Hca Hcp].
  destruct s as [|b s]; simpl.
  - destruct (N.eqb_spec a c); [congruence | done].
  - destruct (a =? b); [by apply IH | done].
Qed.

Lemma match_at_Some s rest :
  match_at pat s = Some rest ↔ ∃ r, s = pat ++ r ∧ rest = opt_newline r.
Proof using Type.
  unfold match_at. destruct (strip_prefix pat s) as [r|] eqn:E; simpl.
  - apply strip_prefix_Some in E as ->. split.
    + intros [= <-]. by exists r.
    + intros (r' & ?%app_inv_head & ->). by subst.
  - split; [done|]. intros (r & -> & _). by rewrite strip_prefix_app in E.
Qed.

Lemma match_at_None s : match_at pat s = None ↔ strip_prefix pat s = None.
Proof using Type. unfold match_at. by destruct (strip_prefix pat s). Qed.

Lemma opt_newline_suffix r : ∃ m, r = m ++ opt_newline r.
Proof using Type.
  destruct r as [|c r]; [by exists []|].
  unfold opt_newline. destruct (c =? NEWLINE); [by exists [c] | by exists []].
Qed.

(** A match is a non-empty block at the front of the text. *)
Lemma match_at_split s rest :
  match_at pat s = Some rest → ∃ c m, s = c :: m ++ rest.
Proof using pat_nonempty.
  intros (r & -> & ->)%match_at_Some.
  destruct (opt_newline_suffix r) as (m & Hm).
  destruct pat as [|c p]; [done|].
  exists c, (p ++ m). rewrite Hm at 1. simpl. by rewrite <-!app_assoc.
Qed.

Lemma remove_from_skip m s :
  remove_from pat (length m) (m ++ s) = remove_from pat 0 s.
Proof using Type. induction m as [|c m IH]; simpl; [done | apply IH]. Qed.

(** Where the expression matches, the match is dropped and the scan
    resumes on the rest. *)
Lemma remove_all_match s rest :
  match_at pat s = Some rest → remove_all pat s = remove_all pat rest.
Proof using pat_nonempty.
  intros H. destruct (match_at_split _ _ H) as (c & m & ->).
  unfold remove_all. simpl. unfold match_length. rewrite H. simpl.
  replace (pred (S (length (m ++ rest)) - length rest)) with (length m)
    by (rewrite length_app; lia).
  apply remove_from_skip.
Qed.

(** Elsewhere the code unit is kept. *)
Lemma remove_all_keep c t :
  match_at pat (c :: t) = None → remove_all pat (c :: t) = c :: remove_all pat t.
Proof using Type.
  intros H. unfold remove_all. simpl. unfold match_length. by rewrite H.
Qed.

Lemma match_at_shorter s rest :
  match_at pat s = Some rest → (length rest < length s)%nat.
Proof using pat_nonempty.
  intros (c & m & ->)%match_at_split. simpl. rewrite length_app. lia.
Qed.

(** Induction along the scan. *)
Lemma remove_all_ind (P : str → Prop) :
  P [] →
  (∀ s rest, match_at pat s = Some rest → P rest → P s) →
  (∀ c t, match_at pat (c :: t) = None → P t → P (c :: t)) →
  ∀ s, P s.
Proof using pat_nonempty.
  intros Hnil Hmatch Hkeep s.
  remember (length s) as n eqn:Hn.
  revert s Hn. induction n as [n IH] using lt_wf_ind. intros s ->.
  destruct s as [|c t]; [done|].
  destruct (match_at pat (c :: t)) as [rest|] eqn:E.
  - eapply Hmatch; [done|]. eapply IH; [|done]. by apply match_at_shorter.
  - apply Hkeep; [done|]. eapply IH; [|done]. simpl; lia.
Qed.

(** The scan only deletes. *)
Lemma remove_all_sublist s : remove_all pat s `sublist_of` s.
Proof using pat_nonempty.
  induction s as [|s rest Hm IH|c t Hn IH] using remove_all_ind.
  - done.
  - rewrite (remove_all_match _ _ Hm).
    destruct (match_at_split _ _ Hm) as (c & m & ->).
    by apply (sublist_inserts_l (c :: m)).
  - rewrite remove_all_keep; [|done]. by apply sublist_skip.
Qed.
End remove_all.

Section trim.
Import JS.

Lemma trimStart_suffix s : ∃ a, s = a ++ trimStart s.
Proof.
  induction s as [|c s [a IH]]; simpl; [by exists []|].
  destruct (is_white_space c); [|by exists []].
  exists (c :: a). simpl. by rewrite <-IH.
Qed.

Lemma trimStart_snoc s c :
  is_white_space c = true →
  trimStart (s ++ [c]) = trimStart s ++ [c] ∨
  (trimStart (s ++ [c]) = [] ∧ trimStart s = []).
Proof.
  intros Hc. induction s as [|d s IH]; simpl.
  - rewrite Hc. by right.
  - destruct (is_white_space d); [done | by left].
Qed.

Lemma trimEnd_snoc s c : is_white_space c = true → trimEnd (s ++ [c]) = trimEnd s.
Proof. intros Hc. unfold trimEnd. rewrite reverse_snoc. simpl. by rewrite Hc. Qed.

(** White space at the end of the text does not survive [trim]. *)
Lemma trim_snoc s c : is_white_space c = true → trim (s ++ [c]) = trim s.
Proof.
  intros Hc. unfold trim.
  destruct (trimStart_snoc s c Hc) as [-> | [-> ->]]; [|done].
  by apply trimEnd_snoc.
Qed.

Lemma trim_infix s : ∃ a b, s = a ++ trim s ++ b.
Proof.
  unfold trim, trimEnd.
  destruct (trimStart_suffix s) as [a Ha].
  destruct (trimStart_suffix (reverse (trimStart s))) as [b Hb].
  exists a, (reverse b). by rewrite <-reverse_app, <-Hb, reverse_involutive.
Qed.

Lemma trim_sublist s : trim s `sublist_of` s.
Proof.
  destruct (trim_infix s) as (a & b & H). rewrite H at 2.
  by apply sublist_inserts_l, sublist_inserts_r.
Qed.

Lemma occurs_trim p s : occurs p (trim s) → occurs p s.
Proof.
  intros (a & b & H). destruct (trim_infix s) as (a' & b' & Hs).
  exists (a' ++ a), (b ++ b'). rewrite Hs, H. by rewrite <-!app_assoc.
Qed.

Lemma occurs_cons p c s :
  occurs p (c :: s) → (∃ b, c :: s = p ++ b) ∨ occurs p s.
Proof.
  intros ([|d a] & b & H); [left; by exists b|].
  right. exists a, b. by injection H.
Qed.

Lemma occurs_nil p : p ≠ [] → ¬ occurs p [].
Proof.
  intros Hp (a & b & H). symmetry in H.
  by apply app_eq_nil in H as [_ [??]%app_eq_nil].
Qed.

Lemma occurs_app_l p q s : occurs (p ++ q) s → occurs p s.
Proof. intros (a & b & ->). exists a, (q ++ b). by rewrite <-app_assoc. Qed.
End trim.

(** * The cleaning step of [getQuiz] *)

Section clean.
Import JS.

Lemma FENCE_nonempty : FENCE ≠ [].
Proof. done. Qed.

Lemma FENCE_JSON_nonempty : FENCE_JSON ≠ [].
Proof. done. Qed.

Lemma FENCE_JSON_split : FENCE_JSON = FENCE ++ «"json"».
Proof. done. Qed.

Lemma NEWLINE_not_in_FENCE_JSON : NEWLINE ∉ FENCE_JSON.
Proof. by apply (bool_decide_unpack _); vm_compute. Qed.

Lemma NEWLINE_not_in_FENCE : NEWLINE ∉ FENCE.
Proof. by apply (bool_decide_unpack _); vm_compute. Qed.

Lemma opt_newline_app r suf :
  r ≠ [] → opt_newline (r ++ suf) = opt_newline r ++ suf.
Proof. destruct r as [|c r]; [done|]. intros _. simpl. by destruct (c =? NEWLINE). Qed.

(** No fence is left by the second replacement. *)
Lemma remove_all_FENCE_clean s : ¬ occurs FENCE (remove_all FENCE s).
Proof.
  induction s as [|s rest Hm IH|c t Hn IH] using (remove_all_ind FENCE FENCE_nonempty).
  - by apply occurs_nil.
  - by rewrite (remove_all_match _ FENCE_nonempty _ _ Hm).
  - rewrite remove_all_keep by done.
    intros [[b Hb] | ?]%occurs_cons; [|done].
    apply match_at_None in Hn.
    injection Hb as -> Hb.
    (* the kept code unit is a backtick and two more follow in the output *)
    destruct t as [|d t]; [done|].
    destruct (match_at FENCE (d :: t)) as [r|] eqn:E1.
    { apply match_at_Some in E1 as (r1 & E1 & _). rewrite E1 in Hn. done. }
    rewrite remove_all_keep in Hb by done. injection Hb as -> Hb.
    destruct t as [|e t]; [done|].
    destruct (match_at FENCE (e :: t)) as [r|] eqn:E2.
    { apply match_at_Some in E2 as (r1 & E2 & _). rewrite E2 in Hn. done. }
    rewrite remove_all_keep in Hb by done. injection Hb as -> Hb.
    done.
Qed.

(** Either replacement on text followed by a closing fence line: a match
    in the text keeps its place, and the newline before the fence stops
    any match from running into it. *)
Lemma remove_all_closing pat (p : str) :
  pat ≠ [] → NEWLINE ∉ pat →
  remove_all pat (p ++ NL ++ FENCE) = remove_all pat p ++ remove_all pat (NL ++ FENCE) ∨
  remove_all pat (p ++ NL ++ FENCE) = remove_all pat p ++ remove_all pat FENCE.
Proof.
  intros Hpat Hnl.
  induction p as [|s rest Hm IH|c t Hn IH] using (remove_all_ind pat Hpat).
  - by left.
  - rewrite (remove_all_match _ Hpat _ _ Hm).
    apply match_at_Some in Hm as (r & -> & ->).
    destruct r as [|d r].
    + right. simpl. apply remove_all_match; [done|].
      apply match_at_Some. exists (NL ++ FENCE).
      split; [by rewrite <-app_assoc | done].
    + rewrite <-(remove_all_match pat Hpat ((pat ++ d :: r) ++ NL ++ FENCE)) in IH;
        [done|].
      apply match_at_Some. exists ((d :: r) ++ NL ++ FENCE).
      split; [by rewrite <-app_assoc | by rewrite opt_newline_app].
  - rewrite remove_all_keep by done.
    rewrite <-app_comm_cons, remove_all_keep.
    + destruct IH as [-> | ->]; [by left | by right].
    + apply match_at_None. rewrite app_comm_cons.
      apply strip_prefix_app_None; [by apply match_at_None | done].
Qed.

(** The second replacement on text directly followed by a fence. *)
Lemma remove_all_FENCE_snoc (q : str) :
  remove_all FENCE (q ++ FENCE) = remove_all FENCE q.
Proof.
  induction q as [|s rest Hm IH|c t Hn IH]
    using (remove_all_ind FENCE FENCE_nonempty).
  - done.
  - rewrite (remove_all_match _ FENCE_nonempty _ _ Hm), <-IH.
    apply remove_all_match; [done|].
    apply match_at_Some in Hm as (r & -> & ->).
    apply match_at_Some. exists (r ++ FENCE). split; [by rewrite <-app_assoc|].
    destruct r as [|d r]; [done | by rewrite opt_newline_app].
  - rewrite remove_all_keep by done.
    destruct (match_at FENCE ((c :: t) ++ FENCE)) as [r|] eqn:E.
    + (* the appended fence completes a short run of backticks *)
      apply match_at_None in Hn.
      apply match_at_Some in E as (r0 & E & _).
      change FENCE with [BACKTICK; BACKTICK; BACKTICK] in *.
      destruct t as [|d [|e t]]; simpl in E.
      * injection E as -> _. by vm_compute.
      * injection E as -> -> _. by vm_compute.
      * injection E as -> -> -> _.
        pose proof (strip_prefix_app [BACKTICK; BACKTICK; BACKTICK] t).
        simpl app in *. congruence.
    + rewrite <-app_comm_cons, remove_all_keep by done. by rewrite IH.
Qed.

(** Both replacements on text followed by a closing fence line leave what
    they leave of the text alone, up to one trailing newline. *)
Lemma remove_fences_closing (p : str) :
  let r := remove_all FENCE (remove_all FENCE_JSON p) in
  remove_all FENCE (remove_all FENCE_JSON (p ++ NL ++ FENCE)) = r ∨
  remove_all FENCE (remove_all FENCE_JSON (p ++ NL ++ FENCE)) = r ++ NL.
Proof.
  intros r. subst r.
  destruct (remove_all_closing FENCE_JSON p FENCE_JSON_nonempty
              NEWLINE_not_in_FENCE_JSON) as [-> | ->].
  - change (remove_all FENCE_JSON (NL ++ FENCE)) with (NL ++ FENCE).
    destruct (remove_all_closing FENCE (remove_all FENCE_JSON p) FENCE_nonempty
                NEWLINE_not_in_FENCE) as [-> | ->].
    + right. done.
    + left. change (remove_all FENCE FENCE) with (@nil N). by rewrite app_nil_r.
  - left. change (remove_all FENCE_JSON FENCE) with FENCE.
    apply remove_all_FENCE_snoc.
Qed.

(** A match that appears only once text is appended straddles the seam. *)
Lemma strip_prefix_app_inv pat s suf r :
  strip_prefix pat (s ++ suf) = Some r → strip_prefix pat s = None →
  ∃ a, a ≠ [] ∧ pat = s ++ a ∧ suf = a ++ r.
Proof.
  revert s. induction pat as [|x pat IH]; intros s; simpl; [done|].
  destruct s as [|b s]; simpl.
  - intros H _. apply (strip_prefix_Some (x :: pat)) in H. by exists (x :: pat).
  - destruct (N.eqb_spec x b) as [->|]; [|done].
    intros H1 H2. destruct (IH s H1 H2) as (a & ? & -> & ->). by exists a.
Qed.

(** The first replacement on text directly followed by a fence. *)
Lemma remove_all_FENCE_JSON_snoc (p : str) :
  remove_all FENCE_JSON (p ++ FENCE) = remove_all FENCE_JSON p ++ FENCE.
Proof.
  induction p as [|s rest Hm IH|c t Hn IH]
    using (remove_all_ind FENCE_JSON FENCE_JSON_nonempty).
  - done.
  - rewrite (remove_all_match _ FENCE_JSON_nonempty _ _ Hm), <-IH.
    apply remove_all_match; [done|].
    apply match_at_Some in Hm as (r & -> & ->).
    apply match_at_Some. exists (r ++ FENCE). split; [by rewrite <-app_assoc|].
    destruct r as [|d r]; [done | by rewrite opt_newline_app].
  - rewrite remove_all_keep by done.
    rewrite <-app_comm_cons, remove_all_keep; [by rewrite IH|].
    apply match_at_None. apply match_at_None in Hn.
    destruct (strip_prefix FENCE_JSON (c :: t ++ FENCE)) as [r|] eqn:E; [|done].
    exfalso. rewrite app_comm_cons in E.
    destruct (strip_prefix_app_inv _ _ _ _ E Hn) as (a & Ha & Hpat & Hsuf).
    (* the block [a] would end in [n] and consist of backticks *)
    assert (last FENCE_JSON = Some 110) as Hlast by done.
    rewrite Hpat, last_app in Hlast.
    destruct (last a) as [z|] eqn:Hz; [|by apply last_None in Hz].
    apply last_Some_elem_of in Hz.
    assert (z ∈ FENCE) as Hin by (rewrite Hsuf; set_solver).
    simplify_eq.
    assert (110 ∉ FENCE) by (by apply (bool_decide_unpack _); vm_compute).
    done.
Qed.

Lemma clean_closing (nl_close : bool) (p : str) :
  clean (p ++ (if nl_close then NL else []) ++ FENCE) = clean p.
Proof.
  unfold clean. destruct nl_close.
  - destruct (remove_fences_closing p) as [-> | ->]; [done | by apply trim_snoc].
  - simpl. by rewrite remove_all_FENCE_JSON_snoc, remove_all_FENCE_snoc.
Qed.

Lemma trim_newline_cons s : trim (NEWLINE :: s) = trim s.
Proof. done. Qed.

Lemma trim_remove_opt_newline z :
  trim (remove_all FENCE (opt_newline z)) = trim (remove_all FENCE z).
Proof.
  destruct z as [|c z]; [done|]. unfold opt_newline.
  destruct (N.eqb_spec c NEWLINE) as [->|]; [|done].
  by rewrite remove_all_keep.
Qed.

Lemma clean_opt_newline x : clean (opt_newline x) = clean x.
Proof.
  destruct x as [|c x]; [done|]. unfold opt_newline.
  destruct (N.eqb_spec c NEWLINE) as [->|]; [|done].
  unfold clean. by rewrite !remove_all_keep.
Qed.

Lemma clean_fenced (json_tag nl_open nl_close : bool) payload :
  json_tag = true ∨ nl_open = true ∨
    (∃ c t, payload = c :: t ∧ c ≠ BACKTICK ∧ c ≠ 106) →
  clean (fenced json_tag nl_open nl_close payload) = clean payload.
Proof.
  intros H. unfold fenced.
  rewrite <-(clean_closing nl_close payload).
  set (X := payload ++ (if nl_close then NL else []) ++ FENCE).
  destruct json_tag.
  - (* the opening fence and its tag are one match of the first replacement *)
    transitivity (clean (opt_newline ((if nl_open then NL else []) ++ X))).
    + unfold clean. do 2 f_equal. apply remove_all_match; [done|].
      apply match_at_Some. exists ((if nl_open then NL else []) ++ X).
      split; [|done]. by rewrite FENCE_JSON_split, <-!app_assoc.
    + destruct nl_open; [done | apply clean_opt_newline].
  - (* the first replacement keeps the opening fence, the second drops it *)
    assert (remove_all FENCE_JSON (FENCE ++ (if nl_open then NL else []) ++ X)
            = FENCE ++ remove_all FENCE_JSON ((if nl_open then NL else []) ++ X)) as E.
    { change FENCE with [BACKTICK; BACKTICK; BACKTICK]. simpl app at 1 3.
      destruct nl_open.
      - by rewrite !remove_all_keep.
      - destruct H as [? | [? | (c & t & Hp & Hc1 & Hc2)]]; [done..|].
        subst X. rewrite Hp. simpl app.
        rewrite !remove_all_keep; [done|..]; apply match_at_None.
        all: match goal with
             | |- strip_prefix ?p ?s = None =>
                 destruct (strip_prefix p s) as [r|] eqn:E; [exfalso|done]
             end.
        all: apply strip_prefix_Some in E.
        all: change FENCE_JSON with [96; 96; 96; 106; 115; 111; 110] in E.
        all: unfold BACKTICK in *; simpl app in E; congruence. }
    unfold clean at 1. simpl app at 2. rewrite E.
    rewrite (remove_all_match FENCE FENCE_nonempty _
               (opt_newline (remove_all FENCE_JSON ((if nl_open then NL else []) ++ X))))
      by (apply match_at_Some; eauto).
    rewrite trim_remove_opt_newline.
    destruct nl_open; [|done].
    change (NL ++ X) with (NEWLINE :: X). by rewrite !remove_all_keep.
Qed.

Lemma clean_sublist raw : clean raw `sublist_of` raw.
Proof.
  unfold clean. etrans; [apply trim_sublist|].
  etrans; by apply remove_all_sublist.
Qed.

Lemma clean_no_fence raw : ¬ occurs FENCE (clean raw).
Proof. intros H%occurs_trim. by apply remove_all_FENCE_clean in H. Qed.
End clean.

(** * Decoding *)

Section valid.
Import JSON.



End valid.

(** * What the handlers do *)

Ltac run :=
  unfold try_catch, respond, throw, mbind, M_bind, mret, M_ret;
  cbv beta iota zeta delta [negb].

Lemma and_then (P R : Prop) : P → (P → R) → P ∧ R.
Proof. tauto. Defined.

Lemma both_then (P Q R : Prop) : P → Q → (P → Q → R) → P ∧ Q ∧ R.
Proof. tauto. Defined.

Lemma getSummary_run env id w :
  getSummary env id w =
    match query_failure env with
    | Some e => (logged «"Summary generation error:"» e w, inr (generation_error SummaryMode))
    | None =>
        match findById w id with
        | None => (w, inr NOT_FOUND)
        | Some file =>
            let prompt := buildPrompt SummaryMode file in
            let w1 := sent prompt w in
            match generateContent env prompt with
            | inl e =>
                (logged «"Summary generation error:"» e w1,
                 inr (generation_error SummaryMode))
            | inr summary =>
                (w1, inr {| status := 200;
                            body := SummaryData (_id file) (title file)
                                      (subject file) summary (now env) |})
            end
        end
    end.
Proof.
  unfold getSummary, File_findById, model_generateContent, console_error. run.
  destruct (query_failure env); [done|].
  destruct (findById w id) as [file|]; [|done].
  by destruct (generateContent env _).
Qed.

Lemma getQuiz_run env id w :
  getQuiz env id w =
    match query_failure env with
    | Some e => (logged «"Quiz generation error:"» e w, inr (generation_error QuizMode))
    | None =>
        match findById w id with
        | None => (w, inr NOT_FOUND)
        | Some file =>
            let prompt := buildPrompt QuizMode file in
            let w1 := sent prompt w in
            match generateContent env prompt with
            | inl e =>
                (logged «"Quiz generation error:"» e w1, inr (generation_error QuizMode))
            | inr raw =>
                match JSON.parse (clean raw) with
                | None =>
                    (logged «"Quiz generation error:"» (SyntaxError (clean raw)) w1,
                     inr (generation_error QuizMode))
                | Some quiz =>
                    match JSON.length_of quiz with
                    | JSON.Throws =>
                        (logged «"Quiz generation error:"»
                           (TypeError «"Cannot read properties of null"») w1,
                         inr (generation_error QuizMode))
                    | total =>
                        (w1, inr {| status := 200;
                                    body := QuizData (_id file) (title file)
                                              (subject file) quiz total (now env) |})
                    end
                end
            end
        end
    end.
Proof.
  unfold getQuiz, File_findById, model_generateContent, JSON_parse, get_length,
    console_error. run.
  destruct (query_failure env); [done|].
  destruct (findById w id) as [file|]; [|done].
  destruct (generateContent env _); [done|].
  destruct (JSON.parse _) as [quiz|]; [|done].
  by destruct (JSON.length_of quiz).
Qed.

Lemma split_nonempty sep s : JS.split sep s ≠ [].
Proof.
  destruct s as [|c s]; simpl; [done|].
  destruct (c =? sep); [done|]. by destruct (JS.split sep s).
Qed.

Lemma file_extension_total name : file_extension name = mret (fileExt_of name).
Proof.
  unfold file_extension, fileExt_of, JS.pop.
  destruct (last (JS.split JS.DOT name)) eqn:E; [done|].
  apply last_None in E. by apply split_nonempty in E.
Qed.

Lemma unlinked_gone p w : p ∉ disk (unlinked p w).
Proof. simpl. apply not_elem_of_difference. right. by apply elem_of_singleton. Qed.

Lemma unlinked_absent p w : bool_decide (p ∈ disk (unlinked p w)) = false.
Proof. apply bool_decide_eq_false, unlinked_gone. Qed.

Lemma uploadFile_run env req w :
  uploadFile env req w =
    match JS.truthy (body_title req), JS.truthy (body_subject req) with
    | Some title, Some subject =>
        match req_file req with
        | None => (w, inr {| status := 400; body := Failure «"Please upload a file"» |})
        | Some file =>
            let ext := fileExt_of (originalname file) in
            let on_disk := bool_decide (path file ∈ disk w) in
            if negb (JS.includes allowedTypes ext) then
              if on_disk then
                (unlinked (path file) w,
                 inr {| status := 400;
                        body := Failure «"Invalid file type. Only PDF, DOCX, PPT, PPTX allowed"» |})
              else upload_error (ENOENT (path file)) w
            else
              match upload env (path file) with
              | inl e =>
                  upload_error e (if on_disk then unlinked (path file) w else w)
              | inr r =>
                  if on_disk then
                    let w1 := unlinked (path file) (stored r w) in
                    match create env with
                    | inl e => upload_error e w1
                    | inr (i, t) =>
                        let doc := new_file i t title req subject ext r in
                        let w2 := inserted doc w1 in
                        match populate_failure env with
                        | Some e => upload_error e w2
                        | None =>
                            (w2, inr {| status := 201;
                                        body := Uploaded «"File uploaded successfully"»
                                                  (populated (users w) ["name"; "email"] doc) |})
                        end
                    end
                  else upload_error (ENOENT (path file)) (stored r w)
              end
        end
    | _, _ => (w, inr {| status := 400; body := Failure «"Please provide title and subject"» |})
    end.
Proof.
  unfold uploadFile, upload_error.
  destruct (JS.truthy (body_title req)) as [title|]; [|done].
  destruct (JS.truthy (body_subject req)) as [subject|]; [|done].
  destruct (req_file req) as [file|]; [|done].
  rewrite file_extension_total.
  unfold cloudinary_upload, unlinkSync, existsSync, File_create, populate, console_error.
  run.
  destruct (JS.includes allowedTypes (fileExt_of (originalname file))); run.
  - destruct (upload env (path file)) as [e|r]; run.
    + destruct (bool_decide (path file ∈ disk w)) eqn:E;
        repeat first [progress run | rewrite E | rewrite unlinked_absent]; done.
    + change (disk (stored r w)) with (disk w).
      destruct (bool_decide (path file ∈ disk w)) eqn:E; run.
      * destruct (create env) as [e|[i t]]; run.
        { repeat first [progress run | rewrite unlinked_absent]; done. }
        change (disk (inserted ?f ?w)) with (disk w).
        destruct (populate_failure env);
          repeat first [progress run | rewrite unlinked_absent
                       | progress change (disk (inserted ?f ?w)) with (disk w)]; done.
      * change (disk (stored r w)) with (disk w).
        repeat first [progress run | rewrite E]; done.
  - destruct (bool_decide (path file ∈ disk w)) eqn:E;
      repeat first [progress run | rewrite E]; done.
Qed.

Lemma getAllFiles_run env w :
  getAllFiles env w =
    match query_failure env with
    | Some e =>
        (logged «"Get files error:"» e w,
         inr {| status := 500; body := Failure (message e) |})
    | None =>
        let data := merge_sort newest_first
                      (populated (users w) ["name"; "email"; "role"] <$> files w) in
        (w, inr {| status := 200; body := FileList (length data) data |})
    end.
Proof. unfold getAllFiles, File_find, console_error. run. by destruct (query_failure env). Qed.

Lemma getFile_run env id w :
  getFile env id w =
    match query_failure env with
    | Some e =>
        (logged «"Get file error:"» e w,
         inr {| status := 500; body := Failure (message e) |})
    | None =>
        match findById w id with
        | Some file =>
            (w, inr {| status := 200;
                       body := OneFile (populated (users w) ["name"; "email"; "role"] file) |})
        | None => (w, inr {| status := 404; body := Failure «"File not found"» |})
        end
    end.
Proof.
  unfold getFile, File_findById_populate, console_error. run.
  destruct (query_failure env); [done|]. by destruct (findById w id).
Qed.

(** The field checks come first and touch nothing. *)
Lemma uploadFile_missing_field env req w :
  JS.truthy (body_title req) = None ∨ JS.truthy (body_subject req) = None →
  uploadFile env req w =
    (w, inr {| status := 400; body := Failure «"Please provide title and subject"» |}).
Proof.
  intros H. rewrite uploadFile_run.
  destruct H as [-> | ->]; [done|]. by destruct (JS.truthy (body_title req)).
Qed.

Lemma uploadFile_missing_file env req w title subject :
  JS.truthy (body_title req) = Some title →
  JS.truthy (body_subject req) = Some subject →
  req_file req = None →
  uploadFile env req w =
    (w, inr {| status := 400; body := Failure «"Please upload a file"» |}).
Proof. intros Ht Hs Hf. by rewrite uploadFile_run, Ht, Hs, Hf. Qed.

(** A staged file with a disallowed extension is deleted. *)
Lemma uploadFile_invalid_type env req w title subject file :
  JS.truthy (body_title req) = Some title →
  JS.truthy (body_subject req) = Some subject →
  req_file req = Some file →
  JS.includes allowedTypes (fileExt_of (originalname file)) = false →
  path file ∈ disk w →
  uploadFile env req w =
    (unlinked (path file) w,
     inr {| status := 400;
            body := Failure «"Invalid file type. Only PDF, DOCX, PPT, PPTX allowed"» |}).
Proof.
  intros Ht Hs Hf Hext Hdisk. rewrite uploadFile_run, Ht, Hs, Hf. cbv zeta.
  by rewrite Hext, bool_decide_eq_true_2.
Qed.

Lemma includes_elem_of arr x : JS.includes arr x = true ↔ x ∈ arr.
Proof.
  unfold JS.includes. rewrite existsb_exists. setoid_rewrite <-list_elem_of_In.
  unfold JS.eqb. split.
  - by intros (y & Hy & ->%bool_decide_eq_true).
  - intros H. exists x. by rewrite bool_decide_eq_true.
Qed.


#[export] Instance newest_first_total : Total newest_first.
Proof. intros a b. unfold newest_first. lia. Qed.

#[export] Instance newest_first_trans : Transitive newest_first.
Proof. intros a b c. unfold newest_first. lia. Qed.

Lemma populated_owner_fields us names f :
  owner_fields_among ("_id" :: names) (populated us names f).
Proof.
  intros fields k v. unfold populated. simpl.
  destruct (find_user us (createdBy f)) as [u|]; simpl; [|done].
  intros [= <-]. unfold select. by intros [? _]%list_elem_of_filter.
Qed.

Lemma returned_owner_fields names d :
  returned names d → owner_fields_among ("_id" :: names) d.
Proof.
  intros [env req w w' msg d' Hrun | env w w' n ds d' Hrun Hd | env id w w' d' Hrun].
  - rewrite uploadFile_run in Hrun. unfold upload_error in Hrun. cbv zeta in Hrun.
    repeat case_match; simplify_eq. apply populated_owner_fields.
  - rewrite getAllFiles_run in Hrun. cbv zeta in Hrun.
    repeat case_match; simplify_eq.
    rewrite merge_sort_Permutation in Hd.
    apply list_elem_of_fmap in Hd as (f & -> & _). apply populated_owner_fields.
  - rewrite getFile_run in Hrun. repeat case_match; simplify_eq.
    apply populated_owner_fields.
Qed.

(** * Properties of the specification *)

(** C1, as stated, fails.  The backend answers with three well-formed
    questions; [getQuiz] answers 200 with that array as the quiz, although
    it is not a quiz of five. *)
Lemma getQuiz_returns_three_questions :
  ∃ w' quiz,
    getQuiz (answering three_questions) «"f1"» library =
      (w', inr {| status := 200;
                  body := QuizData «"f1"» «"Algebra Basics"» «"Math"» quiz
                            (JSON.Count 3) 2000 |}) ∧
    quiz_contract quiz = false.
Proof. eexists _, _. split; vm_compute; reflexivity. Qed.

(** Five questions with a [correctAnswer] of [E] are returned as well. *)
Example getQuiz_returns_answer_E :
  ∃ w' quiz,
    getQuiz (answering answer_E) «"f1"» library =
      (w', inr {| status := 200;
                  body := QuizData «"f1"» «"Algebra Basics"» «"Math"» quiz
                            (JSON.Count 5) 2000 |}) ∧
    quiz_contract quiz = false.
Proof. eexists _, _. split; vm_compute; reflexivity. Qed.

(** A quiz that meets the contract is returned when the backend sends one. *)
Example five_questions_meet_contract :
  quiz_contract <$> parseQuiz five_questions = Some true.
Proof. reflexivity. Qed.

(** C1, as amended.  For every raw text the backend returns for a loaded
    document, the quiz operation either answers with the generic generation
    failure (the cleaned text does not decode, or decodes to [null]) or
    answers 200 with exactly the value the cleaned text decodes to, whatever
    its shape: no structural validation takes place. *)
Theorem getQuiz_returns_decoded_payload env id w file raw :
  query_failure env = None →
  findById w id = Some file →
  generateContent env (buildPrompt QuizMode file) = inr raw →
  ∃ w', getQuiz env id w =
    (w', inr match parseQuiz raw with
             | Some JSON.Null | None => generation_error QuizMode
             | Some quiz =>
                 {| status := 200;
                    body := QuizData (_id file) (title file) (subject file) quiz
                              (JSON.length_of quiz) (now env) |}
             end).
Proof.
  intros Hq Hf Hg. rewrite getQuiz_run, Hq, Hf. cbv zeta. rewrite Hg.
  unfold parseQuiz. destruct (JSON.parse (clean raw)) as [[]|]; simpl; eauto.
  destruct (JSON.get _ _); eauto.
Qed.

Lemma getQuiz_returns_decoded_payload_witness :
  ∃ w', getQuiz (answering five_questions) «"f1"» library =
    (w', inr match parseQuiz five_questions with
             | Some JSON.Null | None => generation_error QuizMode
             | Some quiz =>
                 {| status := 200;
                    body := QuizData «"f1"» «"Algebra Basics"» «"Math"» quiz
                              (JSON.length_of quiz) 2000 |}
             end).
Proof.
  apply (getQuiz_returns_decoded_payload (answering five_questions) «"f1"» library
           algebra); reflexivity.
Defined.

(** C2 at its failing input.  A request without a title whose file the
    upload middleware has already staged is answered 400 and the world is
    left as it was: the staged file is still on disk. *)
Lemma missing_title_keeps_staged_file :
  uploadFile (uploading (inr («"f9"», 5000))) (upload_request None notes_pdf)
    (staged notes_pdf) =
    (staged notes_pdf,
     inr {| status := 400; body := Failure «"Please provide title and subject"» |}) ∧
  path notes_pdf ∈ disk (staged notes_pdf).
Proof. split; [reflexivity|]. simpl. by apply elem_of_singleton. Qed.




(** C4.  Whenever generation fails for a loaded document (the backend call
    throws in either mode, or the quiz text does not decode), the caller
    gets the fixed 500 response of the mode, in which the error does not
    appear, and the error is written to the console. *)
Theorem generation_failure_is_generic mode env id w file e :
  query_failure env = None →
  findById w id = Some file →
  generation_fails env file mode e →
  handler mode env id w =
    (logged (error_label mode) e (sent (buildPrompt mode file) w),
     inr (generation_error mode)).
Proof.
  intros Hq Hf Hfail. destruct Hfail as [mode e Hg | raw Hg Hp | raw Hg Hp].
  - destruct mode; simpl; rewrite ?getSummary_run, ?getQuiz_run, Hq, Hf; cbv zeta;
      by rewrite Hg.
  - simpl. rewrite getQuiz_run, Hq, Hf. cbv zeta. rewrite Hg.
    unfold parseQuiz in Hp. by rewrite Hp.
  - simpl. rewrite getQuiz_run, Hq, Hf. cbv zeta. rewrite Hg.
    unfold parseQuiz in Hp. by rewrite Hp.
Qed.

Lemma generation_failure_is_generic_witness :
  handler SummaryMode (failing quota_exceeded) «"f1"» library =
    (logged «"Summary generation error:"» quota_exceeded
       (sent (buildPrompt SummaryMode algebra) library),
     inr {| status := 500;
            body := Failure «"Failed to generate summary. Please try again."» |}).
Proof.
  apply (generation_failure_is_generic SummaryMode (failing quota_exceeded) «"f1"»
           library algebra quota_exceeded); [reflexivity | reflexivity |].
  apply backend_fails. reflexivity.
Defined.

(** Prose in place of a payload fails the same way. *)
Example undecodable_quiz_is_generic :
  ∃ w', getQuiz (answering «"Sorry, I cannot help with that."») «"f1"» library =
          (w', inr (generation_error QuizMode)).
Proof. eexists. vm_compute. reflexivity. Qed.

(** C5, as stated, fails.  [getAllFiles] returns the owner's role along with
    the name and the email. *)
Lemma findAll_exposes_owner_role :
  ∃ w' d,
    getAllFiles (answering []) library =
      (w', inr {| status := 200; body := FileList 1 [d] |}) ∧
    owner d = Some [("_id", «"u1"»); ("name", «"Alice"»);
                    ("email", «"alice@school.example"»); ("role", «"teacher"»)].
Proof. eexists _, _. split; vm_compute; reflexivity. Qed.

(** C5, as amended.  findAll returns all Documents, newest first by
    creation time; and a Document returned by create carries of its owner
    only the id, the name and the email, one returned by findAll or findById
    only the id, the name, the email and the role; the password is never
    among them. *)
Theorem findAll_newest_first_owner_fields env w w' n ds :
  getAllFiles env w = (w', inr {| status := 200; body := FileList n ds |}) →
  doc <$> ds ≡ₚ files w ∧
  StronglySorted newest_first ds ∧
  n = length ds ∧
  ∀ names d, returned names d →
    (names = ["name"; "email"] ∨ names = ["name"; "email"; "role"]) ∧
    owner_fields_among ("_id" :: names) d ∧
    ∀ fields v, owner d = Some fields → ("password", v) ∉ fields.
Proof.
  intros Hrun. split_and!.
  4: { intros names d Hd. pose proof (returned_owner_fields _ _ Hd) as Hfields.
       split_and!; [destruct Hd; auto | done |].
       intros fields v Hsome Hin. specialize (Hfields _ _ _ Hsome Hin).
       destruct Hd; revert Hfields; by apply (bool_decide_unpack _); vm_compute. }
  all: rewrite getAllFiles_run in Hrun; cbv zeta in Hrun.
  all: destruct (query_failure env); [done|]; simplify_eq.
  - rewrite merge_sort_Permutation, <-list_fmap_compose.
    by rewrite list_fmap_id.
  - by apply StronglySorted_merge_sort; apply _.
  - done.
Qed.

Lemma findAll_newest_first_owner_fields_witness :
  ∃ w' n ds,
    getAllFiles (answering []) second_library =
      (w', inr {| status := 200; body := FileList n ds |}) ∧
    doc <$> ds = [algebra_slides; algebra] ∧
    doc <$> ds ≡ₚ files second_library ∧
    StronglySorted newest_first ds ∧
    n = length ds ∧
    ∀ names d, returned names d →
      (names = ["name"; "email"] ∨ names = ["name"; "email"; "role"]) ∧
      owner_fields_among ("_id" :: names) d ∧
      ∀ fields v, owner d = Some fields → ("password", v) ∉ fields.
Proof.
  eexists _, _, _. apply both_then; [vm_compute; reflexivity | reflexivity |].
  intros Hrun _. exact (findAll_newest_first_owner_fields _ _ _ _ _ Hrun).
Defined.



(** The scenario of the specification: five questions in a [json] fence. *)
Example parseQuiz_fenced_five_questions :
  ∃ quiz, parseQuiz (fenced true true true five_questions) = Some quiz ∧
          JSON.parse five_questions = Some quiz ∧
          quiz_contract quiz = true.
Proof. eexists. split_and!; vm_compute; reflexivity. Qed.

(** With a line break after the opening fence, or with the [json] tag, the
    cleaned text is that of the payload whether the payload is valid or not. *)
Example clean_fenced_any_payload (json_tag nl_close : bool) payload :
  clean (fenced json_tag true nl_close payload) = clean payload ∧
  clean (fenced true false nl_close payload) = clean payload.
Proof. split; apply clean_fenced; auto. Qed.

(** Without either, a payload that is not valid JSON can merge with the
    opening fence. *)
Example fence_merges_with_invalid_payload :
  clean (fenced false false true «"json [1]"») = «"[1]"» ∧
  clean «"json [1]"» = «"json [1]"».
Proof. split; reflexivity. Qed.

(** C7.  The prompt a handler sends is a function of the mode and of the
    title, subject and description of the loaded document alone: two
    requests, whatever their worlds, collaborators and documents, send the
    same prompt when those three fields agree.  Building it reads and writes
    nothing: the handler leaves disk, remote storage, collection and users as
    they were and sends exactly that one prompt. *)
Theorem prompt_depends_only_on_title_subject_description
    mode env1 env2 id1 id2 w1 w2 f1 f2 :
  query_failure env1 = None → findById w1 id1 = Some f1 →
  query_failure env2 = None → findById w2 id2 = Some f2 →
  title f1 = title f2 → subject f1 = subject f2 → description f1 = description f2 →
  let w1' := (handler mode env1 id1 w1).1 in
  let w2' := (handler mode env2 id2 w2).1 in
  buildPrompt mode f1 = buildPrompt mode f2 ∧
  prompts w1' = prompts w1 ++ [buildPrompt mode f1] ∧
  prompts w2' = prompts w2 ++ [buildPrompt mode f1] ∧
  (disk w1', cloud w1', files w1', users w1') = (disk w1, cloud w1, files w1, users w1) ∧
  (disk w2', cloud w2', files w2', users w2') = (disk w2, cloud w2, files w2, users w2).
Proof.
  intros Hq1 Hf1 Hq2 Hf2 Ht Hs Hd.
  assert (buildPrompt mode f1 = buildPrompt mode f2) as Hp.
  { destruct mode; simpl; by rewrite Ht, Hs, Hd. }
  intros w1' w2'. split; [done|]. subst w1' w2'. clear Ht Hs Hd.
  destruct mode; cbn [handler];
    rewrite ?getSummary_run, ?getQuiz_run, Hq1, Hq2, Hf1, Hf2; cbv zeta;
    rewrite <-Hp.
  - by destruct (generateContent env1 _), (generateContent env2 _).
  - split_and!; repeat case_match; done.
Qed.

Lemma prompt_depends_only_on_title_subject_description_witness :
  let w1' := (getQuiz (answering five_questions) «"f1"» library).1 in
  let w2' := (getQuiz (failing quota_exceeded) «"f2"» second_library).1 in
  buildPrompt QuizMode algebra = buildPrompt QuizMode algebra_slides ∧
  prompts w1' = prompts library ++ [buildPrompt QuizMode algebra] ∧
  prompts w2' = prompts second_library ++ [buildPrompt QuizMode algebra] ∧
  (disk w1', cloud w1', files w1', users w1') =
    (disk library, cloud library, files library, users library) ∧
  (disk w2', cloud w2', files w2', users w2') =
    (disk second_library, cloud second_library, files second_library,
     users second_library).
Proof.
  apply (prompt_depends_only_on_title_subject_description QuizMode
           (answering five_questions) (failing quota_exceeded) «"f1"» «"f2"»
           library second_library algebra algebra_slides); reflexivity.
Defined.

(** An omitted description is rendered as [Not provided]. *)
Example summaryPrompt_without_description :
  JS.occurs («"Description: Not provided"» ++ NL) (buildPrompt SummaryMode algebra).
Proof.
  exists (concat [
    «"You are an educational AI assistant. Generate a comprehensive and well-structured summary for a study material."»; NL;
    NL;
    «"Title: "»; DQ; «"Algebra Basics"»; DQ; NL;
    «"Subject: Math"»; NL]).
  eexists. vm_compute. reflexivity.
Qed.



(** The upload of [Week 1.Slides.PPTX]: stored as [ppt], staged file gone. *)
Example upload_of_slides_PPTX :
  ∃ w' d,
    uploadFile (uploading (inr («"f9"», 5000)))
      (upload_request (Some «"Week 1"») slides_PPTX) (staged slides_PPTX) =
      (w', inr {| status := 201; body := Uploaded «"File uploaded successfully"» d |}) ∧
    fileType (doc d) = «"ppt"» ∧ files w' = [doc d] ∧ path slides_PPTX ∉ disk w'.
Proof.
  eexists _, _. split; [vm_compute; reflexivity|].
  split_and!; [reflexivity..|]. by vm_compute.
Qed.

(** C9.  In a successful quiz response [totalQuestions] is [quiz.length];
    when the quiz is an array, that is the number of its entries, whatever
    that number is. *)
Theorem totalQuestions_is_quiz_length env id w w' r fileId t s quiz total at' :
  getQuiz env id w = (w', inr r) →
  body r = QuizData fileId t s quiz total at' →
  total = JSON.length_of quiz ∧
  ∀ entries, quiz = JSON.Array entries → total = JSON.Count (length entries).
Proof.
  rewrite getQuiz_run. intros Hrun Hbody.
  assert (total = JSON.length_of quiz) as ->.
  { cbv zeta in Hrun. repeat case_match; simplify_eq; simpl in Hbody; by simplify_eq. }
  split; [done|]. by intros entries ->.
Qed.

Lemma totalQuestions_is_quiz_length_witness :
  ∃ w' r quiz total,
    getQuiz (answering three_questions) «"f1"» library = (w', inr r) ∧
    body r = QuizData «"f1"» «"Algebra Basics"» «"Math"» quiz total 2000 ∧
    total = JSON.length_of quiz ∧
    ∀ entries, quiz = JSON.Array entries → total = JSON.Count (length entries).
Proof.
  eexists _, _, _, _.
  apply both_then; [vm_compute; reflexivity | reflexivity |].
  apply totalQuestions_is_quiz_length.
Defined.

(** C10.  The cleaned text holds no [```] and no [```json] anywhere, and it
    is what is left of the raw text after deletions only; so whenever the
    raw text holds a fence, inside a JSON string value or elsewhere, the text
    handed to [JSON.parse] differs from it. *)
Theorem clean_removes_every_fence raw :
  JS.occurs FENCE raw →
  ¬ JS.occurs FENCE (clean raw) ∧ ¬ JS.occurs FENCE_JSON (clean raw) ∧
  clean raw `sublist_of` raw ∧ clean raw ≠ raw.
Proof.
  intros Hraw. split_and!.
  - apply clean_no_fence.
  - rewrite FENCE_JSON_split. intros H%occurs_app_l. by apply clean_no_fence in H.
  - apply clean_sublist.
  - intros Heq. rewrite <-Heq in Hraw. by apply clean_no_fence in Hraw.
Qed.

Lemma clean_removes_every_fence_witness :
  JS.occurs FENCE payload_with_fence ∧
  ¬ JS.occurs FENCE (clean payload_with_fence) ∧
  ¬ JS.occurs FENCE_JSON (clean payload_with_fence) ∧
  clean payload_with_fence `sublist_of` payload_with_fence ∧
  clean payload_with_fence ≠ payload_with_fence.
Proof.
  assert (JS.occurs FENCE payload_with_fence) as H
    by (exists («"["» ++ DQ ++ «"a"»), («"b"» ++ DQ ++ «"]"»); reflexivity).
  split; [exact H | exact (clean_removes_every_fence payload_with_fence H)].
Defined.

(** The fence inside the string value is gone from what is decoded. *)
Example fence_inside_string_value :
  JSON.parse payload_with_fence = Some (JSON.Array [JSON.String «"a```b"»]) ∧
  parseQuiz payload_with_fence = Some (JSON.Array [JSON.String «"ab"»]).
Proof. split; reflexivity. Qed.

(** * Further properties of the handlers *)


(** X2.  The four reading handlers leave disk, remote storage and both
    collections as they were; listing and fetching documents send nothing to
    the generation backend, and no handler but [uploadFile] ever adds a
    record: generated artifacts are not persisted. *)
Theorem reading_handlers_keep_the_store env id w :
  same_store w (getAllFiles env w).1 ∧ no_generation w (getAllFiles env w).1 ∧
  same_store w (getFile env id w).1 ∧ no_generation w (getFile env id w).1 ∧
  same_store w (getSummary env id w).1 ∧
  same_store w (getQuiz env id w).1.
Proof.
  rewrite getAllFiles_run, getFile_run, getSummary_run, getQuiz_run. cbv zeta.
  unfold same_store, no_generation.
  split_and!; repeat case_match; done.
Qed.

(** X3.  For an id no document has, [getFile], [getSummary] and [getQuiz]
    answer 404 [File not found] and change nothing; in particular no prompt
    is sent to the generation backend. *)
Theorem unknown_id_is_not_found env id w :
  query_failure env = None →
  findById w id = None →
  getFile env id w = (w, inr NOT_FOUND) ∧
  getSummary env id w = (w, inr NOT_FOUND) ∧
  getQuiz env id w = (w, inr NOT_FOUND).
Proof.
  intros Hq Hf. by rewrite getFile_run, getSummary_run, getQuiz_run, Hq, Hf.
Qed.

Lemma unknown_id_is_not_found_witness :
  getFile (answering five_questions) «"nope"» library = (library, inr NOT_FOUND) ∧
  getSummary (answering five_questions) «"nope"» library = (library, inr NOT_FOUND) ∧
  getQuiz (answering five_questions) «"nope"» library = (library, inr NOT_FOUND).
Proof.
  apply (unknown_id_is_not_found (answering five_questions) «"nope"» library);
    reflexivity.
Defined.

(** X4.  When the database query fails, [getAllFiles] and [getFile] answer
    500 with the message of the database error, while [getSummary] and
    [getQuiz] answer 500 with their fixed message; all four log the error,
    and the two artifact handlers do not call the generation backend. *)
Theorem query_failure_responses env id w e :
  query_failure env = Some e →
  getAllFiles env w =
    (logged «"Get files error:"» e w,
     inr {| status := 500; body := Failure (message e) |}) ∧
  getFile env id w =
    (logged «"Get file error:"» e w,
     inr {| status := 500; body := Failure (message e) |}) ∧
  getSummary env id w =
    (logged «"Summary generation error:"» e w, inr (generation_error SummaryMode)) ∧
  getQuiz env id w =
    (logged «"Quiz generation error:"» e w, inr (generation_error QuizMode)).
Proof.
  intros Hq. by rewrite getAllFiles_run, getFile_run, getSummary_run, getQuiz_run, Hq.
Qed.


Lemma query_failure_responses_witness :
  getAllFiles database_down library =
    (logged «"Get files error:"» (Raised «"connect ECONNREFUSED 127.0.0.1:27017"») library,
     inr {| status := 500;
            body := Failure «"connect ECONNREFUSED 127.0.0.1:27017"» |}) ∧
  getFile database_down «"f1"» library =
    (logged «"Get file error:"» (Raised «"connect ECONNREFUSED 127.0.0.1:27017"») library,
     inr {| status := 500;
            body := Failure «"connect ECONNREFUSED 127.0.0.1:27017"» |}) ∧
  getSummary database_down «"f1"» library =
    (logged «"Summary generation error:"»
       (Raised «"connect ECONNREFUSED 127.0.0.1:27017"») library,
     inr (generation_error SummaryMode)) ∧
  getQuiz database_down «"f1"» library =
    (logged «"Quiz generation error:"»
       (Raised «"connect ECONNREFUSED 127.0.0.1:27017"») library,
     inr (generation_error QuizMode)).
Proof.
  apply (query_failure_responses database_down «"f1"» library
           (Raised «"connect ECONNREFUSED 127.0.0.1:27017"»)).
  reflexivity.
Defined.

Lemma findById_inserted w f :
  findById w (_id f) = None → findById (inserted f w) (_id f) = Some f.
Proof.
  unfold findById. cbn [files inserted]. intros H. rewrite filter_app.
  destruct (filter _ (files w)) as [|g l]; [|done].
  by rewrite filter_cons_True.
Qed.

(** X5.  A document that was just uploaded can be read back: given that its
    id is new to the collection and the database answers, [getFile] on that
    id returns the same document, and [getAllFiles] lists it among one more
    document than before. *)
Theorem uploaded_document_can_be_read env env' req w w' msg d :
  uploadFile env req w = (w', inr {| status := 201; body := Uploaded msg d |}) →
  findById w (_id (doc d)) = None →
  query_failure env' = None →
  (∃ d', getFile env' (_id (doc d)) w' =
           (w', inr {| status := 200; body := OneFile d' |}) ∧ doc d' = doc d) ∧
  (∃ ds d', getAllFiles env' w' =
              (w', inr {| status := 200;
                          body := FileList (S (length (files w))) ds |}) ∧
            d' ∈ ds ∧ doc d' = doc d).
Proof.
  intros Hrun Hfresh Hq.
  assert (w' = inserted (doc d) (unlinked
            (default [] (path <$> req_file req))
            (stored {| secure_url := fileUrl (doc d); public_id := publicId (doc d) |} w)))
    as ->.
  { rewrite uploadFile_run in Hrun. unfold upload_error in Hrun. cbv zeta in Hrun.
    repeat case_match; simplify_eq. simpl. by destruct u. }
  rewrite getFile_run, getAllFiles_run, Hq. cbv zeta.
  rewrite findById_inserted by done. split.
  - eexists. split; [done|done].
  - cbn [users files inserted unlinked stored].
    exists (merge_sort newest_first
              (populated (users w) ["name"; "email"; "role"] <$> files w ++ [doc d])),
           (populated (users w) ["name"; "email"; "role"] (doc d)).
    split_and!; [|rewrite merge_sort_Permutation; set_solver | done].
    repeat f_equal.
    rewrite (Permutation_length (merge_sort_Permutation _ _)).
    rewrite length_fmap, length_app. simpl. lia.
Qed.

Lemma uploaded_document_can_be_read_witness :
  ∃ w' msg d,
    uploadFile (uploading (inr («"f9"», 5000)))
      (upload_request (Some «"Week 1"») slides_PPTX) (staged slides_PPTX) =
      (w', inr {| status := 201; body := Uploaded msg d |}) ∧
    (∃ d', getFile (answering []) (_id (doc d)) w' =
             (w', inr {| status := 200; body := OneFile d' |}) ∧ doc d' = doc d) ∧
    (∃ ds d', getAllFiles (answering []) w' =
                (w', inr {| status := 200;
                            body := FileList (S (length (files (staged slides_PPTX)))) ds |}) ∧
              d' ∈ ds ∧ doc d' = doc d).
Proof.
  eexists _, _, _. apply and_then; [vm_compute; reflexivity|].
  intros Hrun.
  apply (uploaded_document_can_be_read _ (answering []) _ _ _ _ _ Hrun); reflexivity.
Defined.

(** X6.  A request without title, without subject or without file is
    answered 400 and nothing else happens: the world is exactly as before,
    whatever the collaborators would have done. *)
Theorem incomplete_upload_touches_nothing env req w :
  JS.truthy (body_title req) = None ∨ JS.truthy (body_subject req) = None ∨
    req_file req = None →
  ∃ m, uploadFile env req w = (w, inr {| status := 400; body := Failure m |}).
Proof.
  intros H. rewrite uploadFile_run.
  destruct (JS.truthy (body_title req)), (JS.truthy (body_subject req)),
    (req_file req); eauto.
  by destruct H as [? | [? | ?]].
Qed.

Lemma incomplete_upload_touches_nothing_witness :
  ∃ m, uploadFile (uploading (inr («"f9"», 5000)))
         {| body_title := Some «"Week 1"»; body_description := None;
            body_subject := Some []; req_file := Some notes_pdf; user := «"u1"» |}
         (staged notes_pdf) =
       (staged notes_pdf, inr {| status := 400; body := Failure m |}).
Proof.
  apply incomplete_upload_touches_nothing. right; left. reflexivity.
Defined.

(** X7.  A complete request whose staged file has an extension outside
    [pdf], [docx], [ppt], [pptx] is answered 400; the staged file is deleted,
    nothing is sent to remote storage and no record is written. *)
Theorem disallowed_extension_is_cleaned_up env req w w' r title subject file :
  JS.truthy (body_title req) = Some title →
  JS.truthy (body_subject req) = Some subject →
  req_file req = Some file →
  JS.includes allowedTypes (fileExt_of (originalname file)) = false →
  path file ∈ disk w →
  uploadFile env req w = (w', r) →
  r = inr {| status := 400;
             body := Failure «"Invalid file type. Only PDF, DOCX, PPT, PPTX allowed"» |} ∧
  (path file ∉ disk w') ∧ disk w' = disk w ∖ {[path file]} ∧
  cloud w' = cloud w ∧ files w' = files w ∧ console w' = console w.
Proof.
  intros Ht Hs Hf Hext Hdisk.
  rewrite (uploadFile_invalid_type _ _ _ _ _ _ Ht Hs Hf Hext Hdisk).
  intros [= <- <-]. split_and!; try done. apply unlinked_gone.
Qed.

Lemma disallowed_extension_is_cleaned_up_witness :
  ∃ w' r,
    uploadFile (uploading (inr («"f9"», 5000)))
      (upload_request (Some «"Backup"») archive_zip) (staged archive_zip) = (w', r) ∧
    r = inr {| status := 400;
               body := Failure «"Invalid file type. Only PDF, DOCX, PPT, PPTX allowed"» |} ∧
    (path archive_zip ∉ disk w') ∧
    disk w' = disk (staged archive_zip) ∖ {[path archive_zip]} ∧
    cloud w' = cloud (staged archive_zip) ∧ files w' = files (staged archive_zip) ∧
    console w' = console (staged archive_zip).
Proof.
  eexists _, _. apply and_then; [vm_compute; reflexivity|].
  apply (disallowed_extension_is_cleaned_up _ _ _ _ _ «"Backup"» «"Math"» archive_zip);
    reflexivity.
Defined.

(** * The extension of a file name *)

Section extension.
Import JS.






End extension.


Example extension_edge_cases :
  fileExt_of «"PDF"» = «"pdf"» ∧ fileExt_of «"notes.pdf."» = [] ∧
  fileExt_of «"a.b.Docx"» = «"docx"» ∧ fileExt_of «".pptx"» = «"pptx"» ∧
  fileExt_of [] = [].
Proof. by vm_compute. Qed.


(** * More on the cleaning step *)

Section cleaning.
Import JS.

Lemma occurs_prefix p r : occurs p (p ++ r).
Proof. by exists [], r. Qed.

Lemma occurs_cons_r p c s : occurs p s → occurs p (c :: s).
Proof. intros (a & b & ->). by exists (c :: a), b. Qed.

(** Text without a match is left as it is. *)
Lemma remove_all_id pat (s : str) :
  pat ≠ [] → ¬ occurs pat s → remove_all pat s = s.
Proof.
  intros Hpat. induction s as [|s rest Hm IH|c t Hn IH] using (remove_all_ind pat Hpat).
  - done.
  - intros []. apply match_at_Some in Hm as (r & -> & _). apply occurs_prefix.
  - intros Hno. rewrite remove_all_keep by done. f_equal. apply IH.
    intros H. by apply Hno, occurs_cons_r.
Qed.

Lemma trimStart_idemp s : trimStart (trimStart s) = trimStart s.
Proof.
  induction s as [|c s IH]; [done|]. simpl.
  destruct (is_white_space c) eqn:E; [done|]. simpl. by rewrite E.
Qed.

Lemma trimStart_snoc_keep s c :
  is_white_space c = false → trimStart (s ++ [c]) = trimStart s ++ [c].
Proof.
  intros Hc. induction s as [|d s IH]; simpl; [by rewrite Hc|].
  by destruct (is_white_space d).
Qed.

Lemma trimEnd_idemp s : trimEnd (trimEnd s) = trimEnd s.
Proof. unfold trimEnd. by rewrite reverse_involutive, trimStart_idemp. Qed.

(** Trimming the end does not uncover white space at the start. *)
Lemma trimStart_trimEnd s : trimStart s = s → trimStart (trimEnd s) = trimEnd s.
Proof.
  destruct s as [|c s]; [done|]. simpl.
  destruct (is_white_space c) eqn:E.
  - intros H. pose proof (trimStart_suffix s) as [a Ha].
    apply (f_equal length) in H. apply (f_equal length) in Ha.
    rewrite length_app in Ha. simpl in H. lia.
  - intros _. unfold trimEnd. rewrite reverse_cons, trimStart_snoc_keep by done.
    rewrite reverse_snoc. simpl. by rewrite E.
Qed.

Lemma trim_idemp s : trim (trim s) = trim s.
Proof.
  unfold trim. rewrite trimStart_trimEnd by apply trimStart_idemp.
  apply trimEnd_idemp.
Qed.

Lemma white_space_not_in_fence c :
  is_white_space c = true → (c ∉ FENCE_JSON) ∧ (c ∉ FENCE).
Proof.
  intros Hc.
  assert (∀ d, d ∈ FENCE_JSON → is_white_space d = false) as Hpat.
  { intros d Hd. unfold FENCE_JSON in Hd.
    repeat (apply elem_of_cons in Hd as [-> | Hd]); [done..|].
    by apply elem_of_nil in Hd. }
  split; intros Hin.
  - apply Hpat in Hin. congruence.
  - assert (c ∈ FENCE_JSON) as Hin'
      by (rewrite FENCE_JSON_split; apply elem_of_app; by left).
    apply Hpat in Hin'. congruence.
Qed.

Lemma match_at_white_space pat c t :
  pat ≠ [] → c ∉ pat → match_at pat (c :: t) = None.
Proof.
  intros Hpat Hc. apply match_at_None.
  destruct pat as [|a p]; [done|]. simpl.
  apply not_elem_of_cons in Hc as [Hc _].
  by destruct (N.eqb_spec a c).
Qed.

(** Neither replacement touches leading white space. *)
Lemma remove_all_leading pat (pad s : str) :
  pat ≠ [] → (∀ c, c ∈ pad → c ∉ pat) →
  remove_all pat (pad ++ s) = pad ++ remove_all pat s.
Proof.
  intros Hpat Hpad. induction pad as [|c pad IH]; [done|].
  simpl. rewrite remove_all_keep.
  - rewrite IH; [done|]. intros d Hd. apply Hpad. by right.
  - apply match_at_white_space; [done|]. apply Hpad. by left.
Qed.

Lemma remove_all_pad pat (pad : str) :
  pat ≠ [] → (∀ c, c ∈ pad → c ∉ pat) → remove_all pat pad = pad.
Proof.
  intros Hpat Hpad. pose proof (remove_all_leading pat pad [] Hpat Hpad) as H.
  by rewrite !app_nil_r in H.
Qed.

(** Either replacement leaves trailing white space in place, up to a
    newline right after a match at the very end. *)
Lemma remove_all_trailing pat (s pad : str) :
  pat ≠ [] → (∀ c, c ∈ pad → c ∉ pat) →
  ∃ pad', remove_all pat (s ++ pad) = remove_all pat s ++ pad' ∧ (pad' `suffix_of` pad).
Proof.
  intros Hpat Hpad.
  induction s as [|s rest Hm IH|c t Hn IH] using (remove_all_ind pat Hpat).
  - exists pad. split; [|done]. simpl. by apply remove_all_pad.
  - rewrite (remove_all_match _ Hpat _ _ Hm).
    apply match_at_Some in Hm as (r & -> & ->).
    destruct r as [|d r].
    + exists (opt_newline pad). split.
      * rewrite (remove_all_match pat Hpat _ (opt_newline pad)).
        2:{ apply match_at_Some. exists pad. by rewrite app_nil_r. }
        destruct (opt_newline_suffix pad) as [m Hm].
        simpl. apply remove_all_pad; [done|].
        intros c Hc. apply Hpad. rewrite Hm. apply elem_of_app. by right.
      * destruct (opt_newline_suffix pad) as [m Hm]. by exists m.
    + destruct IH as (pad' & IH & Hsuf). exists pad'. split; [|done].
      rewrite <-IH. apply remove_all_match; [done|].
      apply match_at_Some. exists ((d :: r) ++ pad).
      split; [by rewrite <-app_assoc | by rewrite opt_newline_app].
  - destruct IH as (pad' & IH & Hsuf). exists pad'. split; [|done].
    rewrite remove_all_keep by done.
    rewrite <-app_comm_cons, remove_all_keep; [by rewrite IH|].
    destruct pad as [|d pad]; [by rewrite app_nil_r|].
    apply match_at_None. rewrite app_comm_cons.
    apply strip_prefix_app_None; [by apply match_at_None|].
    apply Hpad. by left.
Qed.

Lemma trim_leading pad s :
  Forall (λ c, is_white_space c = true) pad → trim (pad ++ s) = trim s.
Proof.
  unfold trim. induction 1 as [|c pad Hc _ IH]; [done|]. simpl. by rewrite Hc.
Qed.

Lemma trim_trailing s pad :
  Forall (λ c, is_white_space c = true) pad → trim (s ++ pad) = trim s.
Proof.
  intros H. revert s. induction H as [|c pad Hc _ IH]; intros s.
  - by rewrite app_nil_r.
  - replace (s ++ c :: pad) with ((s ++ [c]) ++ pad) by (by rewrite <-app_assoc).
    rewrite IH. by apply trim_snoc.
Qed.
End cleaning.

(** X10.  Cleaning is idempotent: cleaned text holds no fence and no outer
    white space, so cleaning it again changes nothing, and an answer that
    was already cleaned decodes to the same result. *)
Theorem clean_idempotent raw :
  clean (clean raw) = clean raw ∧ parseQuiz (clean raw) = parseQuiz raw.
Proof.
  assert (clean (clean raw) = clean raw) as H; [|by unfold parseQuiz; rewrite H].
  unfold clean at 1.
  rewrite (remove_all_id FENCE_JSON), (remove_all_id FENCE).
  - unfold clean. apply trim_idemp.
  - done.
  - apply clean_no_fence.
  - done.
  - rewrite FENCE_JSON_split. intros H%occurs_app_l. by apply clean_no_fence in H.
Qed.

(** X11.  White space around the backend's answer does not matter: an
    answer padded on either side with any of the code units [trim] removes
    is cleaned to the same text, and so decodes to the same result. *)
Theorem clean_ignores_padding before raw after :
  Forall (λ c, JS.is_white_space c = true) before →
  Forall (λ c, JS.is_white_space c = true) after →
  clean (before ++ raw ++ after) = clean raw ∧
  parseQuiz (before ++ raw ++ after) = parseQuiz raw.
Proof.
  intros Hb Ha.
  assert (clean (before ++ raw ++ after) = clean raw) as H;
    [|by unfold parseQuiz; rewrite H].
  assert (∀ pad pat, Forall (λ c, JS.is_white_space c = true) pad →
            pat = FENCE_JSON ∨ pat = FENCE → ∀ c, c ∈ pad → c ∉ pat) as Hfree.
  { intros pad pat Hpad Hpat c Hc. rewrite Forall_forall in Hpad.
    destruct (white_space_not_in_fence c (Hpad c Hc)). by destruct Hpat as [-> | ->]. }
  unfold clean.
  rewrite (remove_all_leading FENCE_JSON) by eauto.
  destruct (remove_all_trailing FENCE_JSON raw after) as (pad1 & -> & Hs1); [by eauto..|].
  assert (Forall (λ c, JS.is_white_space c = true) pad1) as H1.
  { destruct Hs1 as [m ->]. by apply Forall_app in Ha as [_ ?]. }
  rewrite (remove_all_leading FENCE) by eauto.
  destruct (remove_all_trailing FENCE (JS.remove_all FENCE_JSON raw) pad1)
    as (pad2 & -> & Hs2); [by eauto..|].
  assert (Forall (λ c, JS.is_white_space c = true) pad2) as H2.
  { destruct Hs2 as [m ->]. by apply Forall_app in H1 as [_ ?]. }
  by rewrite trim_leading, trim_trailing.
Qed.

Lemma clean_ignores_padding_witness :
  clean ([160; 10] ++ fenced true true true five_questions ++ [13; 10; 32]) =
    clean (fenced true true true five_questions) ∧
  parseQuiz ([160; 10] ++ fenced true true true five_questions ++ [13; 10; 32]) =
    parseQuiz (fenced true true true five_questions).
Proof.
  apply clean_ignores_padding; repeat constructor.
Defined.

(** * Authentication *)

Section token.
Import JS.

Lemma split_no_sep sep (s : str) : sep ∉ s → split sep s = [s].
Proof.
  induction s as [|c s IH]; [done|]. intros [Hc Hs]%not_elem_of_cons. simpl.
  destruct (N.eqb_spec c sep); [congruence|]. by rewrite IH.
Qed.

Lemma split_app_sep sep (a b : str) :
  sep ∉ a → split sep (a ++ sep :: b) = a :: split sep b.
Proof.
  induction a as [|c a IH]; simpl.
  - intros _. by rewrite N.eqb_refl.
  - intros [Hc Ha]%not_elem_of_cons.
    destruct (N.eqb_spec c sep); [congruence|]. by rewrite IH.
Qed.

(** The first segment of a text. *)
Lemma split_head sep (s t : str) :
  head (split sep s) = Some t ↔
  (sep ∉ t) ∧ ∃ rest, s = t ++ rest ∧ (rest = [] ∨ ∃ r, rest = sep :: r).
Proof.
  destruct (decide (sep ∈ s)) as [Hin | Hno].
  - apply list_elem_of_split_l in Hin as (a & b & -> & Ha).
    rewrite split_app_sep by done. simpl. split.
    + intros [= <-]. split; [done|]. exists (sep :: b). eauto.
    + intros (Ht & rest & Heq & Hrest). f_equal.
      destruct Hrest as [-> | [r ->]].
      * rewrite app_nil_r in Heq. subst t. exfalso. apply Ht.
        apply elem_of_app. right. by left.
      * revert Heq Ha Ht. clear. revert t.
        induction a as [|c a IH]; intros [|d t]; simpl; intros Heq Ha Ht.
        -- done.
        -- injection Heq as <- _. exfalso. apply Ht. by left.
        -- injection Heq as -> _. exfalso. apply Ha. by left.
        -- injection Heq as -> Heq. f_equal.
           apply IH; [done|..].
           ++ intros ?. apply Ha. by right.
           ++ intros ?. apply Ht. by right.
  - rewrite split_no_sep by done. simpl. split.
    + intros [= <-]. split; [done|]. exists []. by rewrite app_nil_r; auto.
    + intros (Ht & rest & -> & [-> | [r ->]]); [by rewrite app_nil_r|].
      exfalso. apply Hno. apply elem_of_app. right. by left.
Qed.

(** The second segment of a text. *)
Lemma split_second sep (s t : str) :
  split sep s !! 1%nat = Some t ↔
  ∃ a rest, s = a ++ sep :: t ++ rest ∧ (sep ∉ a) ∧ (sep ∉ t) ∧
            (rest = [] ∨ ∃ r, rest = sep :: r).
Proof.
  destruct (decide (sep ∈ s)) as [Hin | Hno].
  - apply list_elem_of_split_l in Hin as (a & b & -> & Ha).
    rewrite split_app_sep by done. simpl. rewrite <-head_lookup, split_head. split.
    + intros (Ht & rest & -> & Hrest). by exists a, rest.
    + intros (a' & rest & Heq & Ha' & Ht & Hrest).
      assert (a' = a ∧ t ++ rest = b) as [-> <-].
      { revert Heq Ha Ha'. clear. revert a'.
        induction a as [|c a IH]; intros [|d a']; simpl; intros Heq Ha Ha'.
        - by injection Heq as <-.
        - injection Heq as <- _. exfalso. apply Ha'. by left.
        - injection Heq as -> _. exfalso. apply Ha. by left.
        - injection Heq as -> Heq.
          destruct (IH a') as [-> ->]; [done|..|done].
          + intros ?. apply Ha. by right.
          + intros ?. apply Ha'. by right. }
      split; [done|]. by exists rest.
  - rewrite split_no_sep by done. simpl. split; [done|].
    intros (a & rest & -> & _). exfalso. apply Hno.
    apply elem_of_app. right. by left.
Qed.

Lemma startsWith_true s p : startsWith s p = true ↔ ∃ r, s = p ++ r.
Proof.
  unfold startsWith. destruct (strip_prefix p s) as [r|] eqn:E.
  - apply strip_prefix_Some in E. split; [by exists r | done].
  - split; [done|]. intros [r ->]. by rewrite strip_prefix_app in E.
Qed.
End token.

(** X12.  The token [protect] reads off the [authorization] header: the
    header must start with [Bearer] (any text may follow the word before the
    first space), and the token is the text between the first space and the
    next space or the end of the header. *)
Theorem token_of_header header t :
  token_of (Some header) = Some t ↔
  (∃ r, header = «"Bearer"» ++ r) ∧
  ∃ a rest, header = a ++ SPACE :: t ++ rest ∧ (SPACE ∉ a) ∧ (SPACE ∉ t) ∧
            (rest = [] ∨ ∃ r, rest = SPACE :: r).
Proof.
  rewrite <-split_second, <-startsWith_true. unfold token_of, JS.truthy.
  destruct header as [|c header]; cbn [JS.falsy].
  - split; [done | by intros [[=] _]].
  - destruct (startsWith (c :: header) _).
    + split; [by intros H; split | by intros [_ H]].
    + split; [done | by intros [[=] _]].
Qed.

Example token_of_examples :
  token_of (Some «"Bearer abc.def"») = Some «"abc.def"» ∧
  token_of (Some «"BearerToken abc extra"») = Some «"abc"» ∧
  token_of (Some «"Bearer  abc"») = Some [] ∧
  token_of (Some «"Bearer"») = None ∧
  token_of (Some «"bearer abc"») = None ∧
  token_of (Some «"Basic abc"») = None ∧
  token_of None = None.
Proof. by vm_compute. Qed.

Lemma protect_run aenv req w :
  protect aenv req w =
    match JS.truthy (token_of (authorization req)) with
    | None =>
        (w, inr (Answered {| status := 401;
                             body := Failure «"Not authorized, no token provided"» |}))
    | Some token =>
        let failed e :=
          (logged «"Auth error:"» (Raised (message e)) w,
           inr (Answered {| status := 401;
                            body := Failure «"Not authorized, token failed"» |})) in
        match jwt_verify aenv token with
        | inl e => failed e
        | inr id =>
            match user_query_failure aenv with
            | Some e => failed e
            | None =>
                match find_user (users w) id with
                | None =>
                    (w, inr (Answered {| status := 401;
                                         body := Failure «"User not found"» |}))
                | Some u =>
                    (w, inr (Next (set_user (Some (deselect ["password"] u)) req)))
                end
            end
        end
    end.
Proof.
  unfold protect, verify, User_findById_select, console_error_text, console_error, answer.
  run.
  destruct (JS.truthy (token_of (authorization req))) as [token|]; [|done].
  destruct (jwt_verify aenv token) as [e|id]; [done|].
  destruct (user_query_failure aenv); [done|].
  by destruct (find_user (users w) id).
Qed.

Lemma find_user_Some us i u : find_user us i = Some u → user_id u = i ∧ u ∈ us.
Proof.
  unfold find_user. intros H%head_Some_elem_of.
  by apply list_elem_of_filter in H.
Qed.

Lemma deselect_password u :
  deselect ["password"] u =
    [("_id", user_id u); ("name", name u); ("email", email u); ("role", role u)].
Proof. reflexivity. Qed.

(** What [protect] does, case by case. *)
Lemma protect_cases aenv req w :
  (∃ token u,
     token_of (authorization req) = Some token ∧ token ≠ [] ∧
     jwt_verify aenv token = inr (user_id u) ∧ u ∈ users w ∧
     protect aenv req w =
       (w, inr (Next (set_user (Some (deselect ["password"] u)) req)))) ∨
  (∃ w' m,
     protect aenv req w = (w', inr (Answered {| status := 401; body := Failure m |})) ∧
     same_store w w' ∧ no_generation w w' ∧
     m ∈ [«"Not authorized, no token provided"»; «"User not found"»;
          «"Not authorized, token failed"»]).
Proof.
  rewrite protect_run. cbv zeta. unfold same_store, no_generation.
  destruct (JS.truthy (token_of (authorization req))) as [token|] eqn:Ht.
  2:{ right. eexists _, _. split_and!; try done. set_solver. }
  destruct (jwt_verify aenv token) as [e|id] eqn:Hv.
  { right. eexists _, _. split_and!; try done. set_solver. }
  destruct (user_query_failure aenv).
  { right. eexists _, _. split_and!; try done. set_solver. }
  destruct (find_user (users w) id) as [u|] eqn:Hu.
  2:{ right. eexists _, _. split_and!; try done. set_solver. }
  left. apply find_user_Some in Hu as [<- Hin].
  exists token, u. unfold JS.truthy in Ht.
  destruct (token_of (authorization req)) as [t|]; [|done].
  destruct t; simpl in Ht; [done|]. by injection Ht as <-.
Qed.

(** X13.  [protect] lets a request through only when the header carries a
    non-empty token that verifies and the id in it is that of a user of the
    collection; it changes nothing, and the user it attaches to the request
    is that user with id, name, email and role, without the password. *)
Theorem protect_passes_only_verified_users aenv req w w' req' :
  protect aenv req w = (w', inr (Next req')) →
  w' = w ∧
  ∃ token u,
    token_of (authorization req) = Some token ∧ token ≠ [] ∧
    jwt_verify aenv token = inr (user_id u) ∧
    u ∈ users w ∧
    req' = set_user (req_user req') req ∧
    req_user req' = Some [("_id", user_id u); ("name", name u);
                          ("email", email u); ("role", role u)] ∧
    field "password" (default [] (req_user req')) = None.
Proof.
  intros H.
  destruct (protect_cases aenv req w)
    as [(token & u & Ht & Hne & Hv & Hu & Hrun) | (w1 & m & Hrun & _)];
    rewrite Hrun in H; [|done].
  injection H as <- <-. split; [done|]. by exists token, u.
Qed.

Lemma protect_passes_only_verified_users_witness :
  ∃ w' req',
    protect tokens (read_request (bearer «"t-bob"») «"f1"») school = (w', inr (Next req')) ∧
    w' = school ∧
    ∃ token u,
      token_of (authorization (read_request (bearer «"t-bob"») «"f1"»)) = Some token ∧
      token ≠ [] ∧
      jwt_verify tokens token = inr (user_id u) ∧
      u ∈ users school ∧
      req' = set_user (req_user req') (read_request (bearer «"t-bob"») «"f1"») ∧
      req_user req' = Some [("_id", user_id u); ("name", name u);
                            ("email", email u); ("role", role u)] ∧
      field "password" (default [] (req_user req')) = None.
Proof.
  eexists _, _. apply and_then; [vm_compute; reflexivity|].
  apply protect_passes_only_verified_users.
Defined.

(** X14.  [protect] never throws and never hands an error on: it lets the
    request through or answers 401 with one of its three messages; either
    way disk, remote storage and collections are untouched and nothing is
    sent to the generation backend. *)
Theorem protect_rejects_with_401 aenv req w :
  ∃ w' s,
    protect aenv req w = (w', inr s) ∧
    same_store w w' ∧ no_generation w w' ∧
    ((∃ req', s = Next req') ∨
     (∃ m, s = Answered {| status := 401; body := Failure m |} ∧
           m ∈ [«"Not authorized, no token provided"»; «"User not found"»;
                «"Not authorized, token failed"»])).
Proof.
  destruct (protect_cases aenv req w)
    as [(token & u & _ & _ & _ & _ & Hrun) | (w1 & m & Hrun & Hs & Hg & Hm)];
    rewrite Hrun; eexists _, _; (split; [done|]).
  - split_and!; [done..|]. left. by eexists.
  - split_and!; [done..|]. right. by exists m.
Qed.

(** * The routes *)

Ltac route :=
  unfold serve, router, chain, handle, isTeacher, upload_single, errorHandler,
    answer, console_error;
  run.

Lemma authenticated_request aenv req w req' :
  authenticated aenv req w req' →
  ∃ u, u ∈ users w ∧ req' = set_user (Some (deselect ["password"] u)) req.
Proof.
  unfold authenticated. intros H.
  destruct (protect_cases aenv req w)
    as [(token & u & _ & _ & _ & Hu & Hrun) | (w1 & m & Hrun & _)];
    rewrite Hrun in H; [|done].
  injection H as <-. by exists u.
Qed.

(** X15.  An authenticated user whose role is not [teacher] cannot upload:
    the request is answered 403 before anything is staged, uploaded or
    written, and the world is exactly as before. *)
Theorem non_teacher_cannot_upload aenv menv env node_env req w req' :
  authenticated aenv req w req' →
  role_of req' ≠ Some «"teacher"» →
  serve aenv menv env node_env POST_files req w =
    (w, inr (Sent {| status := 403;
                     body := Failure «"Access denied. Only teachers can perform this action."» |})).
Proof.
  unfold authenticated, role_of. intros Hauth Hrole. route. rewrite Hauth.
  destruct (req_user req') as [u|]; [|done]. simpl in Hrole.
  by rewrite bool_decide_eq_false_2.
Qed.

Lemma non_teacher_cannot_upload_witness :
  serve tokens clock (uploading (inr («"f9"», 5000))) None POST_files
    (upload_form (bearer «"t-bob"») (Some «"Algebra"») notes_part) school =
    (school,
     inr (Sent {| status := 403;
                  body := Failure «"Access denied. Only teachers can perform this action."» |})).
Proof.
  eapply (non_teacher_cannot_upload tokens clock _ None
            (upload_form (bearer «"t-bob"») (Some «"Algebra"») notes_part) school).
  - unfold authenticated. vm_compute. reflexivity.
  - by vm_compute.
Defined.

(** X16.  A request that does not get past [protect] reaches no handler on
    any route: it is answered 401, disk, remote storage and collections are
    untouched, and nothing is sent to the generation backend. *)
Theorem unauthenticated_request_reaches_no_handler aenv menv env node_env route req w :
  (∀ req', ¬ authenticated aenv req w req') →
  ∃ w' m,
    serve aenv menv env node_env route req w =
      (w', inr (Sent {| status := 401; body := Failure m |})) ∧
    same_store w w' ∧ no_generation w w'.
Proof.
  intros Hno.
  destruct (protect_cases aenv req w)
    as [(token & u & _ & _ & _ & _ & Hrun) | (w1 & m & Hrun & Hs & Hg & _)].
  { by apply Hno in Hrun. }
  exists w1, m. split; [|done]. destruct route; route; by rewrite Hrun.
Qed.

Lemma unauthenticated_request_reaches_no_handler_witness :
  ∃ w' m,
    serve tokens clock (uploading (inr («"f9"», 5000))) None POST_files
      (upload_form (bearer «"forged"») (Some «"Algebra"») notes_part) school =
      (w', inr (Sent {| status := 401; body := Failure m |})) ∧
    same_store school w' ∧ no_generation school w'.
Proof.
  apply unauthenticated_request_reaches_no_handler.
  intros req'. unfold authenticated. vm_compute. discriminate.
Defined.

(** The upload route for a request that got past [protect]. *)
Lemma serve_POST_files aenv menv env node_env req w u :
  protect aenv req w = (w, inr (Next (signed_in u req))) →
  serve aenv menv env node_env POST_files req w =
    if bool_decide (role u = «"teacher"») then
      match form_file req with
      | None => replied (uploadFile env (upload_request_of (signed_in u req)) w)
      | Some part =>
          match staging_error menv part with
          | Some e =>
              (logged [] e w,
               inr (SomethingWentWrong
                      (if bool_decide (node_env = Some «"development"»)
                       then Some (message e) else None)))
          | None =>
              replied (uploadFile env
                         (upload_request_of (staged_request menv part (signed_in u req)))
                         (written (staging_path menv part) w))
          end
      end
    else
      (w, inr (Sent {| status := 403;
                       body := Failure «"Access denied. Only teachers can perform this action."» |})).
Proof.
  intros Hauth. route. rewrite Hauth. unfold replied, staging_error. cbv beta iota.
  change (req_user (signed_in u req)) with (Some (deselect ["password"] u)).
  change (form_file (signed_in u req)) with (form_file req).
  change (field "role" (deselect ["password"] u)) with (Some (role u)).
  destruct (decide (role u = «"teacher"»)) as [Hr|Hr].
  2:{ rewrite (bool_decide_eq_false_2 (role u = «"teacher"»)) by done.
      by rewrite (bool_decide_eq_false_2 (Some (role u) = Some «"teacher"»)) by (by intros [=]). }
  rewrite (bool_decide_eq_true_2 (role u = «"teacher"»)) by done.
  rewrite (bool_decide_eq_true_2 (Some (role u) = Some «"teacher"»)) by (by rewrite Hr).
  cbv beta iota. change (form_file (signed_in u req)) with (form_file req).
  destruct (form_file req) as [part|].
  2:{ cbv beta iota. by destruct (uploadFile env _ w) as [w' [e|r]]. }
  destruct (fileFilter part) as [e|[]]; [done|].
  destruct (within_limit menv); [|done].
  cbv beta iota. fold (staged_request menv part (signed_in u req)).
  by destruct (uploadFile env _ _) as [w' [e|r]].
Qed.

Lemma signed_in_teacher aenv req w req' :
  authenticated aenv req w req' →
  role_of req' = Some «"teacher"» →
  ∃ u, protect aenv req w = (w, inr (Next (signed_in u req))) ∧ role u = «"teacher"».
Proof.
  intros Hauth Hrole. destruct (authenticated_request _ _ _ _ Hauth) as (u & _ & ->).
  exists u. split; [done|]. by injection Hrole.
Qed.

Lemma accepted_part menv part :
  part_mimetype part ∈ fileFilter_allowedTypes →
  within_limit menv = true →
  staging_error menv part = None.
Proof.
  intros Hm Hl. unfold staging_error, fileFilter.
  apply includes_elem_of in Hm. by rewrite Hm, Hl.
Qed.

Lemma written_on_disk p w : p ∈ disk (written p w).
Proof. unfold written. cbn [disk]. apply elem_of_union_r. by apply elem_of_singleton. Qed.

Lemma unlinked_written p w : p ∉ disk w → unlinked p (written p w) = w.
Proof.
  intros Hp. destruct w as [d c f u ps l]. unfold unlinked, written. simpl in *.
  f_equal. apply set_eq. intros x. rewrite elem_of_difference, elem_of_union, elem_of_singleton.
  split; [by intros [[?| ->] ?] | intros Hx; split; [by left | by intros ->]].
Qed.

Lemma replied_Sent x w' r : replied x = (w', inr (Sent r)) → x = (w', inr r).
Proof.
  destruct x as [w1 [e|r1]]; unfold replied; cbn [fst snd]; [done|].
  by intros [= -> ->].
Qed.

(** X17.  A request to the upload route (one that comes in without a
    [req.file] of its own) that is answered 201 came with a
    token that verifies to a user of the collection whose role is [teacher],
    and with a file part of an allowed MIME type and an allowed extension
    within the size limit; the one Document added to the collection is the
    one in the answer, and its [createdBy] is the id of that user. *)
Theorem created_document_belongs_to_verified_teacher aenv menv env node_env req w w' r :
  staged_file req = None →
  serve aenv menv env node_env POST_files req w = (w', inr (Sent r)) →
  status r = 201 →
  ∃ token u part msg d,
    token_of (authorization req) = Some token ∧
    jwt_verify aenv token = inr (user_id u) ∧
    u ∈ users w ∧ role u = «"teacher"» ∧
    form_file req = Some part ∧
    part_mimetype part ∈ fileFilter_allowedTypes ∧
    within_limit menv = true ∧
    fileExt_of (part_originalname part) ∈ allowedTypes ∧
    body r = Uploaded msg d ∧
    createdBy (doc d) = user_id u ∧
    files w' = files w ++ [doc d].
Proof.
  intros Hfresh Hrun Hstatus.
  destruct (protect_cases aenv req w)
    as [(token & u & Ht & _ & Hv & Hu & Hp) | (w1 & m & Hp & _)].
  2:{ revert Hrun. route. rewrite Hp. intros [= <- <-]. done. }
  rewrite (serve_POST_files _ _ _ _ _ _ _ Hp) in Hrun.
  case_bool_decide as Hrole; [|by injection Hrun as <- <-].
  destruct (form_file req) as [part|] eqn:Hpart.
  2:{ apply replied_Sent in Hrun. rewrite uploadFile_run in Hrun.
      change (req_file (upload_request_of (signed_in u req))) with (staged_file req) in Hrun.
      rewrite Hfresh in Hrun.
      repeat case_match; by simplify_eq. }
  unfold staging_error, fileFilter in Hrun.
  destruct (JS.includes fileFilter_allowedTypes (part_mimetype part)) eqn:Hmime; [|done].
  destruct (within_limit menv) eqn:Hlimit; [|done].
  apply includes_elem_of in Hmime.
  exists token, u, part. apply replied_Sent in Hrun. rewrite uploadFile_run in Hrun.
  unfold upload_error in Hrun. cbv zeta in Hrun.
  change (req_file (upload_request_of (staged_request menv part (signed_in u req))))
    with (Some {| originalname := part_originalname part; path := staging_path menv part |})
    in Hrun.
  cbn [originalname path] in Hrun.
  repeat case_match; simplify_eq; try done.
  eexists _, _. split_and!; try done.
  apply includes_elem_of. by destruct (JS.includes allowedTypes _).
Qed.

Lemma created_document_belongs_to_verified_teacher_witness :
  ∃ w' r,
    staged_file (upload_form (bearer «"t-alice"») (Some «"Algebra"») notes_part) = None ∧
    serve tokens clock (uploading (inr («"f9"», 5000))) None POST_files
      (upload_form (bearer «"t-alice"») (Some «"Algebra"») notes_part) school =
      (w', inr (Sent r)) ∧
    status r = 201 ∧
    ∃ token u part msg d,
      token_of (authorization (upload_form (bearer «"t-alice"») (Some «"Algebra"») notes_part)) =
        Some token ∧
      jwt_verify tokens token = inr (user_id u) ∧
      u ∈ users school ∧ role u = «"teacher"» ∧
      form_file (upload_form (bearer «"t-alice"») (Some «"Algebra"») notes_part) = Some part ∧
      part_mimetype part ∈ fileFilter_allowedTypes ∧
      within_limit clock = true ∧
      fileExt_of (part_originalname part) ∈ allowedTypes ∧
      body r = Uploaded msg d ∧
      createdBy (doc d) = user_id u ∧
      files w' = files school ++ [doc d].
Proof.
  eexists _, _. split; [reflexivity|].
  apply both_then; [vm_compute; reflexivity | reflexivity |].
  by apply created_document_belongs_to_verified_teacher.
Defined.

(** X18.  A file part that the filter refuses for its MIME type, or that is
    over the size limit, never reaches [uploadFile]: the error handler logs
    the error and answers 500 [Something went wrong!], with the error's
    message only when [NODE_ENV] is [development]; nothing is staged,
    uploaded or written.  For a refused MIME type the message is the
    filter's. *)
Theorem refused_part_reaches_only_the_error_handler aenv menv env node_env req w req' part :
  authenticated aenv req w req' →
  role_of req' = Some «"teacher"» →
  form_file req = Some part →
  (part_mimetype part ∉ fileFilter_allowedTypes) ∨ within_limit menv = false →
  ∃ e,
    serve aenv menv env node_env POST_files req w =
      (logged [] e w,
       inr (SomethingWentWrong
              (if bool_decide (node_env = Some «"development"») then Some (message e)
               else None))) ∧
    same_store w (logged [] e w) ∧
    (part_mimetype part ∉ fileFilter_allowedTypes →
     message e = «"Invalid file type. Only PDF, DOCX, and PPT files are allowed."»).
Proof.
  intros Hauth Hrole Hpart Hrefused.
  destruct (signed_in_teacher _ _ _ _ Hauth Hrole) as (u & Hp & Hu).
  rewrite (serve_POST_files _ _ _ _ _ _ _ Hp), bool_decide_eq_true_2, Hpart by done.
  unfold staging_error, fileFilter.
  destruct (JS.includes fileFilter_allowedTypes (part_mimetype part)) eqn:Hmime.
  - apply includes_elem_of in Hmime. destruct Hrefused as [? | ->]; [done|].
    by eexists.
  - by eexists.
Qed.

Lemma refused_part_reaches_only_the_error_handler_witness :
  ∃ e,
    serve tokens clock (uploading (inr («"f9"», 5000))) (Some «"production"») POST_files
      (upload_form (bearer «"t-alice"») (Some «"Holiday"») image_part) school =
      (logged [] e school,
       inr (SomethingWentWrong
              (if bool_decide (Some «"production"» = Some «"development"»)
               then Some (message e) else None))) ∧
    same_store school (logged [] e school) ∧
    (part_mimetype image_part ∉ fileFilter_allowedTypes →
     message e = «"Invalid file type. Only PDF, DOCX, and PPT files are allowed."»).
Proof.
  eapply (refused_part_reaches_only_the_error_handler tokens clock _ _
            (upload_form (bearer «"t-alice"») (Some «"Holiday"») image_part) school).
  - unfold authenticated. vm_compute. reflexivity.
  - reflexivity.
  - reflexivity.
  - left. rewrite <-includes_elem_of. by vm_compute.
Defined.

(** X19.  What an upload by a teacher leaves on disk, when the file part is
    accepted and staged under a fresh name: nothing, whatever the handler
    answers, unless title or subject is missing; then the staged file
    stays. *)
Theorem staged_file_stays_only_without_title_or_subject
    aenv menv env node_env req w req' part :
  authenticated aenv req w req' →
  role_of req' = Some «"teacher"» →
  form_file req = Some part →
  part_mimetype part ∈ fileFilter_allowedTypes →
  within_limit menv = true →
  staging_path menv part ∉ disk w →
  disk (serve aenv menv env node_env POST_files req w).1 =
    match JS.truthy (form_title req), JS.truthy (form_subject req) with
    | Some _, Some _ => disk w
    | _, _ => disk w ∪ {[staging_path menv part]}
    end.
Proof.
  intros Hauth Hrole Hpart Hmime Hlimit Hnew.
  destruct (signed_in_teacher _ _ _ _ Hauth Hrole) as (u & Hp & Hu).
  rewrite (serve_POST_files _ _ _ _ _ _ _ Hp), bool_decide_eq_true_2, Hpart by done.
  rewrite accepted_part by done. unfold replied. cbn [fst].
  rewrite uploadFile_run. unfold upload_error. cbv zeta.
  change (body_title (upload_request_of (staged_request menv part (signed_in u req))))
    with (form_title req).
  change (body_subject (upload_request_of (staged_request menv part (signed_in u req))))
    with (form_subject req).
  change (req_file (upload_request_of (staged_request menv part (signed_in u req))))
    with (Some {| originalname := part_originalname part; path := staging_path menv part |}).
  cbn [originalname path].
  destruct (JS.truthy (form_title req)); [|done].
  destruct (JS.truthy (form_subject req)); [|done].
  rewrite bool_decide_eq_true_2 by apply written_on_disk.
  assert (∀ r, unlinked (staging_path menv part) (stored r (written (staging_path menv part) w))
               = stored r w) as Hstored.
  { intros r. rewrite <-(unlinked_written _ w Hnew) at 2. done. }
  repeat case_match; cbn [fst]; rewrite ?Hstored, ?unlinked_written by done; done.
Qed.

Lemma staged_file_stays_only_without_title_or_subject_witness :
  disk (serve tokens clock (uploading (inr («"f9"», 5000))) None POST_files
          (upload_form (bearer «"t-alice"») None notes_part) school).1 =
    match JS.truthy (form_title (upload_form (bearer «"t-alice"») None notes_part)),
          JS.truthy (form_subject (upload_form (bearer «"t-alice"») None notes_part)) with
    | Some _, Some _ => disk school
    | _, _ => disk school ∪ {[staging_path clock notes_part]}
    end.
Proof.
  eapply (staged_file_stays_only_without_title_or_subject tokens clock _ None
            (upload_form (bearer «"t-alice"») None notes_part) school).
  - unfold authenticated. vm_compute. reflexivity.
  - reflexivity.
  - reflexivity.
  - rewrite <-includes_elem_of. by vm_compute.
  - reflexivity.
  - apply not_elem_of_empty.
Defined.

(** X20.  The file filter and the handler check different things: a file
    part of an allowed MIME type whose name has no allowed extension passes
    the filter and is staged, then [uploadFile] refuses it with 400 and
    removes the staged file, so that the world is exactly as before. *)
Theorem allowed_mime_type_with_other_extension
    aenv menv env node_env req w req' part title subject :
  authenticated aenv req w req' →
  role_of req' = Some «"teacher"» →
  form_file req = Some part →
  JS.truthy (form_title req) = Some title →
  JS.truthy (form_subject req) = Some subject →
  part_mimetype part ∈ fileFilter_allowedTypes →
  within_limit menv = true →
  fileExt_of (part_originalname part) ∉ allowedTypes →
  staging_path menv part ∉ disk w →
  serve aenv menv env node_env POST_files req w =
    (w, inr (Sent {| status := 400;
                     body := Failure «"Invalid file type. Only PDF, DOCX, PPT, PPTX allowed"» |})).
Proof.
  intros Hauth Hrole Hpart Htitle Hsubject Hmime Hlimit Hext Hnew.
  destruct (signed_in_teacher _ _ _ _ Hauth Hrole) as (u & Hp & Hu).
  rewrite (serve_POST_files _ _ _ _ _ _ _ Hp), bool_decide_eq_true_2, Hpart by done.
  rewrite accepted_part by done.
  erewrite uploadFile_invalid_type; [|exact Htitle|exact Hsubject|reflexivity|..].
  - unfold replied. cbn [fst snd path]. by rewrite unlinked_written.
  - cbn [originalname]. rewrite <-includes_elem_of in Hext.
    by destruct (JS.includes allowedTypes _).
  - apply written_on_disk.
Qed.

Lemma allowed_mime_type_with_other_extension_witness :
  serve tokens clock (uploading (inr («"f9"», 5000))) None POST_files
    (upload_form (bearer «"t-alice"») (Some «"Essay"») legacy_doc_part) school =
    (school,
     inr (Sent {| status := 400;
                  body := Failure «"Invalid file type. Only PDF, DOCX, PPT, PPTX allowed"» |})).
Proof.
  eapply (allowed_mime_type_with_other_extension tokens clock _ None
            (upload_form (bearer «"t-alice"») (Some «"Essay"») legacy_doc_part) school).
  - unfold authenticated. vm_compute. reflexivity.
  - reflexivity.
  - reflexivity.
  - reflexivity.
  - reflexivity.
  - rewrite <-includes_elem_of. by vm_compute.
  - reflexivity.
  - rewrite <-includes_elem_of. by vm_compute.
  - apply not_elem_of_empty.
Defined.

(** X21.  The reading routes ask for authentication only, not for a role:
    a request that got past [protect] is answered by the handler, run on
    the id of the path and the world as it is. *)
Theorem reading_routes_need_no_role aenv menv env node_env req w req' :
  authenticated aenv req w req' →
  serve aenv menv env node_env GET_files req w = replied (getAllFiles env w) ∧
  serve aenv menv env node_env GET_file req w = replied (getFile env (params_id req) w) ∧
  serve aenv menv env node_env GET_summary req w = replied (getSummary env (params_id req) w) ∧
  serve aenv menv env node_env GET_quiz req w = replied (getQuiz env (params_id req) w).
Proof.
  intros Hauth. destruct (authenticated_request _ _ _ _ Hauth) as (u & _ & ->).
  unfold authenticated in Hauth. unfold replied.
  split_and!; route; rewrite Hauth; cbv beta iota;
    change (params_id (set_user _ req)) with (params_id req).
  - by destruct (getAllFiles env w) as [w' [e|r]].
  - by destruct (getFile env _ w) as [w' [e|r]].
  - by destruct (getSummary env _ w) as [w' [e|r]].
  - by destruct (getQuiz env _ w) as [w' [e|r]].
Qed.

Lemma reading_routes_need_no_role_witness :
  serve tokens clock (answering «"A summary."») None GET_files (read_request (bearer «"t-bob"») «"f1"») school =
    replied (getAllFiles (answering «"A summary."») school) ∧
  serve tokens clock (answering «"A summary."») None GET_file (read_request (bearer «"t-bob"») «"f1"») school =
    replied (getFile (answering «"A summary."») (params_id (read_request (bearer «"t-bob"») «"f1"»)) school) ∧
  serve tokens clock (answering «"A summary."») None GET_summary (read_request (bearer «"t-bob"») «"f1"») school =
    replied (getSummary (answering «"A summary."») (params_id (read_request (bearer «"t-bob"») «"f1"»)) school) ∧
  serve tokens clock (answering «"A summary."») None GET_quiz (read_request (bearer «"t-bob"») «"f1"») school =
    replied (getQuiz (answering «"A summary."») (params_id (read_request (bearer «"t-bob"») «"f1"»)) school).
Proof.
  eapply (reading_routes_need_no_role tokens clock (answering «"A summary."») None
            (read_request (bearer «"t-bob"») «"f1"») school).
  unfold authenticated. vm_compute. reflexivity.
Defined.

(** * The names of staged files *)

Section staging.
Local Open Scope N_scope.

Lemma digits_rev_digit fuel n c : c ∈ digits_rev fuel n → 48 ≤ c ≤ 57.
Proof.
  revert n. induction fuel as [|fuel IH]; intros n; cbn [digits_rev];
    [by intros ?%elem_of_nil|].
  intros [-> | Hc]%elem_of_cons.
  - pose proof (N.mod_upper_bound n 10 ltac:(lia)) as H. revert H. clear.
    generalize (n `mod` 10). intros; lia.
  - destruct (n <? 10); [by apply elem_of_nil in Hc | by apply IH in Hc].
Qed.

Lemma digits_rev_number fuel n :
  n < 10 ^ N.of_nat fuel → number_of (digits_rev fuel n) = n.
Proof.
  revert n. induction fuel as [|fuel IH]; intros n Hn.
  - simpl in *. lia.
  - rewrite Nat2N.inj_succ, N.pow_succ_r' in Hn.
    cbn [digits_rev number_of]. destruct (N.ltb_spec n 10) as [Hs|Hs].
    + cbn [number_of]. rewrite N.mod_small by done. lia.
    + rewrite IH.
      * pose proof (N.div_mod' n 10) as H. revert H. clear.
        generalize (n / 10) (n `mod` 10). intros; lia.
      * apply N.Div0.div_lt_upper_bound; lia.
Qed.

Lemma decimal_fuel n : n < 10 ^ N.of_nat (S (N.to_nat (N.log2 n))).
Proof.
  rewrite Nat2N.inj_succ, N2Nat.id.
  destruct (decide (n = 0)) as [->|Hn]; [done|].
  destruct (N.log2_spec n) as [_ Hlt]; [lia|].
  eapply N.lt_le_trans; [exact Hlt|]. apply N.pow_le_mono_l. lia.
Qed.

Lemma decimal_inj a b : decimal a = decimal b → a = b.
Proof.
  unfold decimal. intros H%(inj reverse).
  rewrite <-(digits_rev_number _ a (decimal_fuel a)), H.
  apply digits_rev_number, decimal_fuel.
Qed.

Lemma decimal_no_dash n : DASH ∉ decimal n.
Proof.
  unfold decimal. rewrite elem_of_reverse. intros H%digits_rev_digit.
  unfold DASH in H. lia.
Qed.

Lemma app_sep_inj (sep : N) a a' b b' :
  sep ∉ a → sep ∉ a' → a ++ sep :: b = a' ++ sep :: b' → a = a' ∧ b = b'.
Proof.
  revert a'. induction a as [|c a IH]; intros [|d a']; simpl; intros Ha Ha' Heq.
  - by injection Heq as <-.
  - injection Heq as <- _. exfalso. apply Ha'. by left.
  - injection Heq as -> _. exfalso. apply Ha. by left.
  - injection Heq as -> Heq.
    destruct (IH a') as [-> ->]; [..|done|done].
    + intros ?. apply Ha. by right.
    + intros ?. apply Ha'. by right.
Qed.
End staging.

(** X22.  The path under which a file part is staged is [uploads/] followed
    by a name that determines the time stamp, the random number and the
    original name: two parts are staged under the same path only when all
    three agree. *)
Theorem staging_path_determines_its_parts menv1 menv2 part1 part2 :
  staging_path menv1 part1 = staging_path menv2 part2 →
  date_now menv1 = date_now menv2 ∧
  random_1E9 menv1 = random_1E9 menv2 ∧
  part_originalname part1 = part_originalname part2.
Proof.
  unfold staging_path, filename. cbv zeta. intros H%(inj (app destination)).
  change «"-"» with [DASH] in H. rewrite <-!app_assoc in H. simpl in H.
  apply app_sep_inj in H as [Hnow H]; [|apply decimal_no_dash..].
  apply app_sep_inj in H as [Hrandom H]; [|apply decimal_no_dash..].
  by apply decimal_inj in Hnow, Hrandom.
Qed.

Lemma staging_path_determines_its_parts_witness :
  staging_path clock notes_part = staging_path clock notes_part ∧
  date_now clock = date_now clock ∧
  random_1E9 clock = random_1E9 clock ∧
  part_originalname notes_part = part_originalname notes_part.
Proof.
  apply and_then; [reflexivity|]. apply staging_path_determines_its_parts.
Defined.

(** The name under which [notes.pdf] is staged. *)
Example staging_path_of_notes :
  staging_path clock notes_part = «"uploads/1700000000000-42-notes.pdf"».
Proof. by vm_compute. Qed.

(** * More on the routes and the handlers *)



(** X24.  Summaries and quizzes are generated anew on every request: two
    requests for the same document send its prompt to the generation backend
    twice, whatever the backend answers, and leave the collection as it
    was. *)
Theorem artifacts_are_generated_anew mode env id w file :
  query_failure env = None →
  findById w id = Some file →
  prompts (handler mode env id (handler mode env id w).1).1 =
    prompts w ++ [buildPrompt mode file; buildPrompt mode file] ∧
  files (handler mode env id (handler mode env id w).1).1 = files w.
Proof.
  intros Hq Hf.
  assert (∀ w0, files w0 = files w →
            prompts (handler mode env id w0).1 = prompts w0 ++ [buildPrompt mode file] ∧
            files (handler mode env id w0).1 = files w) as Hone.
  { intros w0 Hfiles.
    assert (findById w0 id = Some file) as Hf0 by (by unfold findById; rewrite Hfiles).
    destruct mode; unfold handler; [rewrite getSummary_run | rewrite getQuiz_run];
      rewrite Hq, Hf0; cbv zeta; repeat case_match; done. }
  destruct (Hone w eq_refl) as [Hp1 Hf1].
  destruct (Hone _ Hf1) as [Hp2 Hf2].
  split; [|done]. by rewrite Hp2, Hp1, <-app_assoc.
Qed.

Lemma artifacts_are_generated_anew_witness :
  prompts (handler SummaryMode (answering «"A summary."») «"f1"»
             (handler SummaryMode (answering «"A summary."») «"f1"» library).1).1 =
    prompts library ++ [buildPrompt SummaryMode algebra; buildPrompt SummaryMode algebra] ∧
  files (handler SummaryMode (answering «"A summary."») «"f1"»
           (handler SummaryMode (answering «"A summary."») «"f1"» library).1).1 =
    files library.
Proof.
  apply (artifacts_are_generated_anew SummaryMode (answering «"A summary."») «"f1"»
           library algebra); reflexivity.
Defined.

(** X25.  An upload answered 201 has moved the file to remote storage: the
    staged file was on disk and is gone, remote storage holds one more
    object, the one the record's [fileUrl] and [publicId] point to, the
    record's [createdBy] is the requesting user, and nothing was logged. *)
Theorem successful_upload_moves_file_to_remote_storage env req w w' r :
  uploadFile env req w = (w', inr r) →
  status r = 201 →
  ∃ file obj msg d,
    req_file req = Some file ∧
    upload env (path file) = inr obj ∧
    path file ∈ disk w ∧
    disk w' = disk w ∖ {[path file]} ∧
    cloud w' = cloud w ++ [obj] ∧
    body r = Uploaded msg d ∧
    fileUrl (doc d) = secure_url obj ∧
    publicId (doc d) = public_id obj ∧
    createdBy (doc d) = user req ∧
    console w' = console w.
Proof.
  intros Hrun Hstatus. rewrite uploadFile_run in Hrun. unfold upload_error in Hrun.
  cbv zeta in Hrun.
  repeat case_match; simplify_eq; try done.
  eexists _, _, _, _. split_and!; try done.
  match goal with H : bool_decide _ = true |- _ => by apply bool_decide_eq_true in H end.
Qed.

Lemma successful_upload_moves_file_to_remote_storage_witness :
  ∃ w' r,
    uploadFile (uploading (inr («"f9"», 5000)))
      (upload_request (Some «"Week 1"») notes_pdf) (staged notes_pdf) = (w', inr r) ∧
    status r = 201 ∧
    ∃ file obj msg d,
      req_file (upload_request (Some «"Week 1"») notes_pdf) = Some file ∧
      upload (uploading (inr («"f9"», 5000))) (path file) = inr obj ∧
      path file ∈ disk (staged notes_pdf) ∧
      disk w' = disk (staged notes_pdf) ∖ {[path file]} ∧
      cloud w' = cloud (staged notes_pdf) ++ [obj] ∧
      body r = Uploaded msg d ∧
      fileUrl (doc d) = secure_url obj ∧
      publicId (doc d) = public_id obj ∧
      createdBy (doc d) = user (upload_request (Some «"Week 1"») notes_pdf) ∧
      console w' = console (staged notes_pdf).
Proof.
  eexists _, _. apply both_then; [vm_compute; reflexivity | reflexivity |].
  apply successful_upload_moves_file_to_remote_storage.
Defined.
